(** * ThreadActorProxy: the client-side state machine of a Firefox thread actor

    A shallow embedding of [src/firefox/actorProxy/thread.ts].  The proxy's
    private fields become a record, promises become cells of a store that
    are addressed by their identity, and everything the proxy does to its
    collaborators (the connection, the event listeners, the logger) is
    recorded, in program order, in a trace.  A method is a computation in a
    small state-and-exception monad over that world. *)

From Stdlib Require Import Floats Ascii String ZArith Uint63.
From stdpp Require Import base option list sets strings.

Set Warnings "-register-all".

Set Default Proof Using "Type".

(** ** JavaScript values *)

(** The values that travel in protocol messages: what [JSON.parse] yields,
    plus [undefined], which the proxy stores in outbound messages and
    obtains whenever it reads a property that is not there. *)
Inductive JsVal : Type :=
  | JUndefined
  | JNull
  | JBool (b : bool)
  | JNum (x : float)
  | JStr (s : string)
  | JArr (items : list JsVal)
  | JObj (fields : list (string * JsVal)).

(** An object is the list of its own enumerable properties, in insertion
    order; the keys of an object are pairwise distinct. *)
Abbreviation JsObject := (list (string * JsVal)).

(** [o[k]] on an object: [undefined] when [o] has no property [k]. *)
Fixpoint field (o : JsObject) (k : string) : JsVal :=
  match o with
  | [] => JUndefined
  | (k', v) :: o' => if String.eqb k' k then v else field o' k
  end.

(** [v.k] on an arbitrary value, for the property names this module reads
    ([type], [why], [frameFinished], [return], [source], [url], [actor]):
    none of them is a property of a primitive or of an array, so the read
    gives [undefined] there.  Reading a property of [undefined] or [null]
    raises a TypeError, rendered as [None]. *)
Definition member (v : JsVal) (k : string) : option JsVal :=
  match v with
  | JUndefined | JNull => None
  | JObj o => Some (field o k)
  | _ => Some JUndefined
  end.

(** JavaScript's ToBoolean. *)
Definition truthy (v : JsVal) : bool :=
  match v with
  | JUndefined | JNull => false
  | JBool b => b
  | JNum x => negb (PrimFloat.is_zero x || PrimFloat.is_nan x)
  | JStr s => negb (String.eqb s EmptyString)
  | JArr _ | JObj _ => true
  end.

(** [v === 'literal']: strict equality with a string. *)
Definition strict_eq_str (v : JsVal) (s : string) : bool :=
  match v with
  | JStr t => String.eqb t s
  | _ => false
  end.

(** Whether the conversion of [v] to a string, as a template literal does
    it, succeeds.  A primitive always converts.  An array converts by
    joining the conversions of its elements.  An object of a decoded
    message converts through [Object.prototype.toString], unless it has a
    property [toString] of its own, which, not being a function, leaves no
    way to a primitive: then the conversion throws a TypeError. *)
Fixpoint printable (v : JsVal) : bool :=
  match v with
  | JArr items => forallb printable items
  | JObj fields => negb (existsb (fun kv => String.eqb kv.1 "toString") fields)
  | _ => true
  end.

(** A natural number as a JavaScript number. *)
Definition number_of_nat (n : nat) : float :=
  PrimFloat.of_uint63 (Uint63.of_Z (Z.of_nat n)).

(** [v.length] on a value that is neither [undefined] nor [null]: the
    number of elements of an array, the number of characters of a string,
    the property of that name of an object, and [undefined] on a number or
    a boolean. *)
Definition js_length (v : JsVal) : JsVal :=
  match v with
  | JArr items => JNum (number_of_nat (length items))
  | JStr s => JNum (number_of_nat (String.length s))
  | JObj o => field o "length"
  | _ => JUndefined
  end.

Declare Scope js_scope.
Delimit Scope js_scope with js.
Notation "v === s" := (strict_eq_str v s) (at level 70, no associativity) : js_scope.

(** ** Promises *)

(** A promise is a single-assignment cell.  It is identified by its index
    in the store of all promises created so far. *)
Inductive PromiseState : Type :=
  | Pending
  | Resolved (value : JsVal)
  | Rejected (reason : JsVal).

Abbreviation Promise := nat (only parsing).

(** [PendingRequest<T>] is the pair [{ resolve, reject }] of the settling
    functions of one promise; it is represented by that promise. *)
Abbreviation PendingRequest := nat (only parsing).

(** Settling a promise: only a pending promise changes state. *)
Definition settle (p : Promise) (st : PromiseState)
    (store : list PromiseState) : list PromiseState :=
  match store !! p with
  | Some Pending => <[p := st]> store
  | _ => store
  end.

(** ** The proxy object *)

Module ExceptionBreakpoints.
Inductive t : Type := All | Uncaught | None.
End ExceptionBreakpoints.

(** The optional second argument of [resume]: ['next' | 'step' | 'finish']. *)
Module ResumeLimitType.
Inductive t : Type := next | step | finish.

(** The string that the value is. *)
Definition str (l : t) : string :=
  match l with
  | next => "next"
  | step => "step"
  | finish => "finish"
  end.
End ResumeLimitType.

(** The private fields of [ThreadActorProxy].  A field that holds [null] or
    [undefined] is [None]; the code only ever tests such a field for
    truthiness.  A [PendingRequests<T>] is the list of its queued requests,
    oldest first. *)
Record ThreadActorProxy : Type := mkProxy {
  _name : string;
  pendingAttachRequest : option PendingRequest;
  attachPromise : option Promise;
  pendingResumeRequest : option PendingRequest;
  resumePromise : option Promise;
  pendingInterruptRequest : option PendingRequest;
  interruptPromise : option Promise;
  pendingDetachRequest : option PendingRequest;
  detachPromise : option Promise;
  pendingSourcesRequests : list PendingRequest;
  pendingStackFramesRequests : list PendingRequest;
  pendingEvaluateRequests : list PendingRequest;
  pendingReleaseRequests : list PendingRequest
}.

(** A readable and assignable field of the proxy. *)
Record Field (A : Type) : Type := mkField {
  fget : ThreadActorProxy -> A;
  fset : A -> ThreadActorProxy -> ThreadActorProxy
}.
Arguments mkField {A} _ _.
Arguments fget {A} _ _.
Arguments fset {A} _ _ _.

Definition set_pendingAttachRequest (v : option PendingRequest) (p : ThreadActorProxy) : ThreadActorProxy :=
  mkProxy (_name p) v (attachPromise p)
    (pendingResumeRequest p) (resumePromise p)
    (pendingInterruptRequest p) (interruptPromise p)
    (pendingDetachRequest p) (detachPromise p)
    (pendingSourcesRequests p) (pendingStackFramesRequests p)
    (pendingEvaluateRequests p) (pendingReleaseRequests p).

Definition set_attachPromise (v : option Promise) (p : ThreadActorProxy) : ThreadActorProxy :=
  mkProxy (_name p) (pendingAttachRequest p) v
    (pendingResumeRequest p) (resumePromise p)
    (pendingInterruptRequest p) (interruptPromise p)
    (pendingDetachRequest p) (detachPromise p)
    (pendingSourcesRequests p) (pendingStackFramesRequests p)
    (pendingEvaluateRequests p) (pendingReleaseRequests p).

Definition set_pendingResumeRequest (v : option PendingRequest) (p : ThreadActorProxy) : ThreadActorProxy :=
  mkProxy (_name p) (pendingAttachRequest p) (attachPromise p)
    v (resumePromise p)
    (pendingInterruptRequest p) (interruptPromise p)
    (pendingDetachRequest p) (detachPromise p)
    (pendingSourcesRequests p) (pendingStackFramesRequests p)
    (pendingEvaluateRequests p) (pendingReleaseRequests p).

Definition set_resumePromise (v : option Promise) (p : ThreadActorProxy) : ThreadActorProxy :=
  mkProxy (_name p) (pendingAttachRequest p) (attachPromise p)
    (pendingResumeRequest p) v
    (pendingInterruptRequest p) (interruptPromise p)
    (pendingDetachRequest p) (detachPromise p)
    (pendingSourcesRequests p) (pendingStackFramesRequests p)
    (pendingEvaluateRequests p) (pendingReleaseRequests p).

Definition set_pendingInterruptRequest (v : option PendingRequest) (p : ThreadActorProxy) : ThreadActorProxy :=
  mkProxy (_name p) (pendingAttachRequest p) (attachPromise p)
    (pendingResumeRequest p) (resumePromise p)
    v (interruptPromise p)
    (pendingDetachRequest p) (detachPromise p)
    (pendingSourcesRequests p) (pendingStackFramesRequests p)
    (pendingEvaluateRequests p) (pendingReleaseRequests p).

Definition set_interruptPromise (v : option Promise) (p : ThreadActorProxy) : ThreadActorProxy :=
  mkProxy (_name p) (pendingAttachRequest p) (attachPromise p)
    (pendingResumeRequest p) (resumePromise p)
    (pendingInterruptRequest p) v
    (pendingDetachRequest p) (detachPromise p)
    (pendingSourcesRequests p) (pendingStackFramesRequests p)
    (pendingEvaluateRequests p) (pendingReleaseRequests p).

Definition set_pendingDetachRequest (v : option PendingRequest) (p : ThreadActorProxy) : ThreadActorProxy :=
  mkProxy (_name p) (pendingAttachRequest p) (attachPromise p)
    (pendingResumeRequest p) (resumePromise p)
    (pendingInterruptRequest p) (interruptPromise p)
    v (detachPromise p)
    (pendingSourcesRequests p) (pendingStackFramesRequests p)
    (pendingEvaluateRequests p) (pendingReleaseRequests p).

Definition set_detachPromise (v : option Promise) (p : ThreadActorProxy) : ThreadActorProxy :=
  mkProxy (_name p) (pendingAttachRequest p) (attachPromise p)
    (pendingResumeRequest p) (resumePromise p)
    (pendingInterruptRequest p) (interruptPromise p)
    (pendingDetachRequest p) v
    (pendingSourcesRequests p) (pendingStackFramesRequests p)
    (pendingEvaluateRequests p) (pendingReleaseRequests p).

Definition set_pendingSourcesRequests (v : list PendingRequest) (p : ThreadActorProxy) : ThreadActorProxy :=
  mkProxy (_name p) (pendingAttachRequest p) (attachPromise p)
    (pendingResumeRequest p) (resumePromise p)
    (pendingInterruptRequest p) (interruptPromise p)
    (pendingDetachRequest p) (detachPromise p)
    v (pendingStackFramesRequests p)
    (pendingEvaluateRequests p) (pendingReleaseRequests p).

Definition set_pendingStackFramesRequests (v : list PendingRequest) (p : ThreadActorProxy) : ThreadActorProxy :=
  mkProxy (_name p) (pendingAttachRequest p) (attachPromise p)
    (pendingResumeRequest p) (resumePromise p)
    (pendingInterruptRequest p) (interruptPromise p)
    (pendingDetachRequest p) (detachPromise p)
    (pendingSourcesRequests p) v
    (pendingEvaluateRequests p) (pendingReleaseRequests p).

Definition set_pendingEvaluateRequests (v : list PendingRequest) (p : ThreadActorProxy) : ThreadActorProxy :=
  mkProxy (_name p) (pendingAttachRequest p) (attachPromise p)
    (pendingResumeRequest p) (resumePromise p)
    (pendingInterruptRequest p) (interruptPromise p)
    (pendingDetachRequest p) (detachPromise p)
    (pendingSourcesRequests p) (pendingStackFramesRequests p)
    v (pendingReleaseRequests p).

Definition set_pendingReleaseRequests (v : list PendingRequest) (p : ThreadActorProxy) : ThreadActorProxy :=
  mkProxy (_name p) (pendingAttachRequest p) (attachPromise p)
    (pendingResumeRequest p) (resumePromise p)
    (pendingInterruptRequest p) (interruptPromise p)
    (pendingDetachRequest p) (detachPromise p)
    (pendingSourcesRequests p) (pendingStackFramesRequests p)
    (pendingEvaluateRequests p) v.

(** The fields as first-class references: [F.x] stands for [this.x]. *)
Module F.
Definition pendingAttachRequest := mkField pendingAttachRequest set_pendingAttachRequest.
Definition attachPromise := mkField attachPromise set_attachPromise.
Definition pendingResumeRequest := mkField pendingResumeRequest set_pendingResumeRequest.
Definition resumePromise := mkField resumePromise set_resumePromise.
Definition pendingInterruptRequest := mkField pendingInterruptRequest set_pendingInterruptRequest.
Definition interruptPromise := mkField interruptPromise set_interruptPromise.
Definition pendingDetachRequest := mkField pendingDetachRequest set_pendingDetachRequest.
Definition detachPromise := mkField detachPromise set_detachPromise.
Definition pendingSourcesRequests := mkField pendingSourcesRequests set_pendingSourcesRequests.
Definition pendingStackFramesRequests := mkField pendingStackFramesRequests set_pendingStackFramesRequests.
Definition pendingEvaluateRequests := mkField pendingEvaluateRequests set_pendingEvaluateRequests.
Definition pendingReleaseRequests := mkField pendingReleaseRequests set_pendingReleaseRequests.
End F.

(** ** The world around the proxy *)

Inductive Level : Type := debug | warn.

(** What an event carries: a protocol value, or the actor proxy that the
    connection keeps under a given name. *)
Inductive EventArg : Type :=
  | Value (v : JsVal)
  | Actor (actorName : JsVal).

(** The calls the proxy makes on its collaborators: [log.debug] and
    [log.warn], [connection.sendRequest], [connection.getOrCreate] and
    [this.emit].  A log entry keeps the template of the message as the
    source has it and the values that are interpolated into it.  The
    collaborators are outside the model: a call on them is recorded, it
    returns normally and it does not call back into the proxy. *)
Inductive Effect : Type :=
  | Log (level : Level) (template : string) (args : list JsVal)
  | SendRequest (request : JsObject)
  | GetOrCreate (actorName : JsVal) (source : JsVal)
  | Emit (event : string) (args : list EventArg).

(** The proxy object, the store of all promises created so far, and the
    calls made on the collaborators so far, oldest first. *)
Record World : Type := mkWorld {
  this : ThreadActorProxy;
  promises : list PromiseState;
  trace : list Effect
}.

(** ** Computations *)

(** A call returns a value or throws; either way it leaves a world behind,
    with the assignments made before the throw. *)
Inductive Completion (A : Type) : Type :=
  | Normal (a : A)
  | Throw (e : JsVal).
Arguments Normal {A} a.
Arguments Throw {A} e.

Definition M (A : Type) : Type := World -> Completion A * World.

Definition ret {A} (a : A) : M A := fun w => (Normal a, w).

Definition bind {A B} (m : M A) (k : A -> M B) : M B :=
  fun w =>
    match m w with
    | (Normal a, w') => k a w'
    | (Throw e, w') => (Throw e, w')
    end.

Notation "x <- m ;; k" := (bind m (fun x => k))
  (at level 100, m at next level, k at level 200, right associativity) : js_scope.
Notation "m ;; k" := (bind m (fun _ => k))
  (at level 100, k at level 200, right associativity) : js_scope.

Open Scope js_scope.

Definition throw {A} (e : JsVal) : M A := fun w => (Throw e, w).

(** The error thrown when a property of [undefined] or [null] is read. *)
Definition TypeError : JsVal := JObj [("name", JStr "TypeError")].

(** [v.k], raising a TypeError when [v] is [undefined] or [null]. *)
Definition prop (v : JsVal) (k : string) : M JsVal :=
  match member v k with
  | Some x => ret x
  | None => throw TypeError
  end.

(** The conversion of an interpolated value to a string, [`${v}`]: it
    throws a TypeError when [v] does not convert; the value is handed on
    to the log entry as it is. *)
Definition ToString (v : JsVal) : M JsVal :=
  if printable v then ret v else throw TypeError.

Definition read {A} (f : Field A) : M A :=
  fun w => (Normal (fget f (this w)), w).

Definition assign {A} (f : Field A) (v : A) : M unit :=
  fun w => (Normal tt, mkWorld (fset f v (this w)) (promises w) (trace w)).

(** The getter [name]. *)
Definition this_name : M string :=
  fun w => (Normal (_name (this w)), w).

Definition effect (e : Effect) : M unit :=
  fun w => (Normal tt, mkWorld (this w) (promises w) (trace w ++ [e])).

Definition log_debug (template : string) (args : list JsVal) : M unit :=
  effect (Log debug template args).
Definition log_warn (template : string) (args : list JsVal) : M unit :=
  effect (Log warn template args).
Definition sendRequest (request : JsObject) : M unit :=
  effect (SendRequest request).
Definition emit (event : string) (args : list EventArg) : M unit :=
  effect (Emit event args).

(** [new Promise((resolve, reject) => executor)]: the executor runs at once,
    with the settling functions of the new promise; if it throws, the
    promise is rejected with what it threw. *)
Definition new_Promise (executor : PendingRequest -> M unit) : M Promise :=
  fun w =>
    let p := length (promises w) in
    match executor p (mkWorld (this w) (promises w ++ [Pending]) (trace w)) with
    | (Normal _, w') => (Normal p, w')
    | (Throw e, w') =>
        (Normal p, mkWorld (this w') (settle p (Rejected e) (promises w')) (trace w'))
    end.

(** [Promise.resolve(v)]: a new promise that is already resolved. *)
Definition Promise_resolve (v : JsVal) : M Promise :=
  fun w =>
    (Normal (length (promises w)),
     mkWorld (this w) (promises w ++ [Resolved v]) (trace w)).

(** [request.resolve(v)] and [request.reject(reason)]. *)
Definition resolve (request : PendingRequest) (v : JsVal) : M unit :=
  fun w =>
    (Normal tt, mkWorld (this w) (settle request (Resolved v) (promises w)) (trace w)).
Definition reject (request : PendingRequest) (reason : JsVal) : M unit :=
  fun w =>
    (Normal tt, mkWorld (this w) (settle request (Rejected reason) (promises w)) (trace w)).

Fixpoint forEach {A} (f : A -> M unit) (l : list A) : M unit :=
  match l with
  | [] => ret tt
  | x :: l' => f x ;; forEach f l'
  end.

(** ** The queues of pending requests *)

Module PendingRequests.

(** Modelled from the spec: the class [PendingRequests<T>] of
    [./pendingRequests], which the proxy imports and whose source is not
    part of this unit.  [enqueue] appends a request to the queue. *)
Definition enqueue (q : Field (list PendingRequest)) (request : PendingRequest) : M unit :=
  l <- read q ;;
  assign q (l ++ [request]).

(** Modelled from the spec: the method [resolveOne] of the absent class
    [PendingRequests<T>].  It pops the oldest request and resolves it with
    the value; on an empty queue it logs a warning and does nothing
    else. *)
Definition resolveOne (q : Field (list PendingRequest)) (v : JsVal) : M unit :=
  l <- read q ;;
  match l with
  | request :: rest =>
      assign q rest ;;
      resolve request v
  | [] => log_warn "Received response without corresponding request" []
  end.

(** Modelled from the spec: the method [rejectAll] of the absent class
    [PendingRequests<T>].  It rejects every queued request with the
    reason and empties the queue. *)
Definition rejectAll (q : Field (list PendingRequest)) (reason : JsVal) : M unit :=
  l <- read q ;;
  forEach (fun request => reject request reason) l ;;
  assign q [].

End PendingRequests.

(** ** The operations of the proxy *)

(** Attach the thread if it is detached. *)
Definition attach : M (option Promise) :=
  name <- this_name ;;
  log_debug "Attaching thread ${this.name}" [JStr name] ;;
  cached <- read F.attachPromise ;;
  match cached with
  | None =>
      p <- new_Promise (fun request =>
        assign F.pendingAttachRequest (Some request) ;;
        sendRequest [("to", JStr name); ("type", JStr "attach");
                     ("options", JObj [("useSourceMaps", JBool true)])]) ;;
      assign F.attachPromise (Some p) ;;
      assign F.detachPromise None
  | Some _ =>
      log_warn "Attaching this thread has already been requested!" []
  end ;;
  read F.attachPromise.

(** Resume the thread if it is paused. *)
Definition resume (exceptionBreakpoints : ExceptionBreakpoints.t)
    (resumeLimitType : option ResumeLimitType.t) : M (option Promise) :=
  name <- this_name ;;
  log_debug "Resuming thread ${this.name}" [JStr name] ;;
  cached <- read F.resumePromise ;;
  match cached with
  | None =>
      let resumeLimit :=
        match resumeLimitType with
        | Some l => JObj [("type", JStr (ResumeLimitType.str l))]
        | None => JUndefined
        end in
      let '(pauseOnExceptions, ignoreCaughtExceptions) :=
        match exceptionBreakpoints with
        | ExceptionBreakpoints.All => (JBool true, JUndefined)
        | ExceptionBreakpoints.Uncaught => (JBool true, JBool true)
        | ExceptionBreakpoints.None => (JUndefined, JUndefined)
        end in
      p <- new_Promise (fun request =>
        assign F.pendingResumeRequest (Some request) ;;
        sendRequest [("to", JStr name); ("type", JStr "resume");
                     ("resumeLimit", resumeLimit);
                     ("pauseOnExceptions", pauseOnExceptions);
                     ("ignoreCaughtExceptions", ignoreCaughtExceptions)]) ;;
      assign F.resumePromise (Some p) ;;
      assign F.interruptPromise None
  | Some _ => ret tt
  end ;;
  read F.resumePromise.

(** Interrupt the thread if it is running. *)
Definition interrupt : M (option Promise) :=
  name <- this_name ;;
  log_debug "Interrupting thread ${this.name}" [JStr name] ;;
  cached <- read F.interruptPromise ;;
  match cached with
  | None =>
      p <- new_Promise (fun request =>
        assign F.pendingInterruptRequest (Some request) ;;
        sendRequest [("to", JStr name); ("type", JStr "interrupt")]) ;;
      assign F.interruptPromise (Some p) ;;
      assign F.resumePromise None
  | Some _ => ret tt
  end ;;
  read F.interruptPromise.

(** Detach the thread if it is attached. *)
Definition detach : M (option Promise) :=
  name <- this_name ;;
  log_debug "Detaching thread ${this.name}" [JStr name] ;;
  cached <- read F.detachPromise ;;
  match cached with
  | None =>
      p <- new_Promise (fun request =>
        assign F.pendingDetachRequest (Some request) ;;
        sendRequest [("to", JStr name); ("type", JStr "detach")]) ;;
      assign F.detachPromise (Some p) ;;
      assign F.attachPromise None
  | Some _ =>
      log_warn "Detaching this thread has already been requested!" []
  end ;;
  read F.detachPromise.

(** Fetch the list of source files. *)
Definition fetchSources : M Promise :=
  name <- this_name ;;
  log_debug "Fetching sources from thread ${this.name}" [JStr name] ;;
  new_Promise (fun request =>
    PendingRequests.enqueue F.pendingSourcesRequests request ;;
    sendRequest [("to", JStr name); ("type", JStr "sources")]).

(** Fetch StackFrames. *)
Definition fetchStackFrames (levels : float) : M Promise :=
  name <- this_name ;;
  log_debug "Fetching stackframes from thread ${this.name}" [JStr name] ;;
  new_Promise (fun request =>
    PendingRequests.enqueue F.pendingStackFramesRequests request ;;
    sendRequest [("to", JStr name); ("type", JStr "frames");
                 ("start", JNum 0%float); ("count", JNum levels)]).

Definition backslash : ascii := "092"%char.
Definition dquote : ascii := "034"%char.

(** [s.replace(/c/g, r)] for a pattern that is the single character [c] and
    a replacement [r] without dollar patterns. *)
Fixpoint replace_all (c : ascii) (r : string) (s : string) : string :=
  match s with
  | EmptyString => EmptyString
  | String a s' =>
      if Ascii.eqb a c then r +:+ replace_all c r s'
      else String a (replace_all c r s')
  end.

Definition escapedExpression (expr : string) : string :=
  replace_all dquote (String backslash (String dquote EmptyString))
    (replace_all backslash (String backslash (String backslash EmptyString)) expr).

Definition tryExpression (expr : string) : string :=
  "eval(" +:+ String dquote "try{" +:+ escapedExpression expr
    +:+ "}catch(e){e.name+':'+e.message}" +:+ String dquote ")".

(** Evaluate the given expression on the specified StackFrame. *)
Definition evaluate (expr : string) (frameActorName : string) : M Promise :=
  name <- this_name ;;
  log_debug "Evaluating '${expr}' on thread ${this.name}" [JStr expr; JStr name] ;;
  new_Promise (fun request =>
    PendingRequests.enqueue F.pendingEvaluateRequests request ;;
    sendRequest [("to", JStr name); ("type", JStr "clientEvaluate");
                 ("expression", JStr (tryExpression expr));
                 ("frame", JStr frameActorName)]).

(** Release object grips that were promoted to thread-lifetime grips. *)
Definition releaseMany (objectGripActorNames : list string) : M Promise :=
  name <- this_name ;;
  log_debug "Releasing grips on thread ${this.name}" [JStr name] ;;
  new_Promise (fun request =>
    PendingRequests.enqueue F.pendingReleaseRequests request ;;
    sendRequest [("to", JStr name); ("type", JStr "releaseMany");
                 ("actors", JArr (JStr <$> objectGripActorNames))]).

(** The [switch] over [pausedResponse.why.type]. *)
Definition receivePaused (pausedResponse : JsObject) : M unit :=
  whyType <- prop (field pausedResponse "why") "type" ;;
  shown <- ToString whyType ;;
  log_debug "Received paused message of type ${pausedResponse.why.type}" [shown] ;;
  if whyType === "attached" then
    pending <- read F.pendingAttachRequest ;;
    match pending with
    | Some request =>
        resolve request JUndefined ;;
        assign F.pendingAttachRequest None ;;
        p <- Promise_resolve JUndefined ;;
        assign F.interruptPromise (Some p)
    | None => log_warn "Received attached message without pending request" []
    end
  else if whyType === "interrupted" then
    pending <- read F.pendingInterruptRequest ;;
    match pending with
    | Some request =>
        resolve request JUndefined ;;
        assign F.pendingInterruptRequest None
    | None => log_warn "Received interrupted message without pending request" []
    end
  else if (whyType === "resumeLimit") || (whyType === "breakpoint")
          || (whyType === "exception") then
    p <- Promise_resolve JUndefined ;;
    assign F.interruptPromise (Some p) ;;
    assign F.resumePromise None ;;
    assign F.pendingInterruptRequest None ;;
    assign F.pendingResumeRequest None ;;
    emit "paused" [Value (field pausedResponse "why")]
  else if whyType === "clientEvaluated" then
    p <- Promise_resolve JUndefined ;;
    assign F.interruptPromise (Some p) ;;
    assign F.resumePromise None ;;
    frameFinished <- prop (field pausedResponse "why") "frameFinished" ;;
    result <- prop frameFinished "return" ;;
    PendingRequests.resolveOne F.pendingEvaluateRequests result
  else
    shown <- ToString whyType ;;
    log_warn "Paused event with reason ${pausedResponse.why.type} not handled yet" [shown] ;;
    emit "paused" [Value (field pausedResponse "why")].

Definition receiveResponse (response : JsObject) : M unit :=
  name <- this_name ;;
  if field response "type" === "paused" then
    receivePaused response
  else if field response "type" === "resumed" then
    log_debug "Received resumed event from ${this.name}" [JStr name] ;;
    pending <- read F.pendingResumeRequest ;;
    match pending with
    | Some request =>
        resolve request JUndefined ;;
        assign F.pendingResumeRequest None
    | None => log_warn "Received resumed reply without pending request" []
    end
  else if field response "type" === "detached" then
    log_debug "Thread ${this.name} detached" [JStr name] ;;
    pending <- read F.pendingDetachRequest ;;
    match pending with
    | Some request =>
        resolve request JUndefined ;;
        assign F.pendingDetachRequest None
    | None =>
        log_warn "Thread ${this.name} detached without a corresponding request" [JStr name]
    end ;;
    PendingRequests.rejectAll F.pendingStackFramesRequests (JStr "Detached") ;;
    PendingRequests.rejectAll F.pendingEvaluateRequests (JStr "Detached")
  else if truthy (field response "sources") then
    let sources := field response "sources" in
    n <- ToString (js_length sources) ;;
    log_debug "Received ${sources.length} sources from thread ${this.name}"
      [n; JStr name] ;;
    PendingRequests.resolveOne F.pendingSourcesRequests sources
  else if field response "type" === "newSource" then
    let source := field response "source" in
    url <- prop source "url" ;;
    shown <- ToString url ;;
    log_debug "New source ${source.url} on thread ${this.name}" [shown; JStr name] ;;
    actor <- prop source "actor" ;;
    effect (GetOrCreate actor source) ;;
    emit "newSource" [Actor actor]
  else if truthy (field response "frames") then
    let frames := field response "frames" in
    n <- ToString (js_length frames) ;;
    log_debug "Received ${frames.length} frames from thread ${this.name}"
      [n; JStr name] ;;
    PendingRequests.resolveOne F.pendingStackFramesRequests frames
  else if field response "type" === "exited" then
    log_debug "Thread ${this.name} exited" [JStr name] ;;
    emit "exited" []
  else if field response "error" === "wrongState" then
    log_warn "Thread ${this.name} was in the wrong state for the last request" [JStr name] ;;
    emit "wrongState" []
  else if length response =? 1 then
    log_debug "Received response to releaseMany request" [] ;;
    PendingRequests.resolveOne F.pendingReleaseRequests JUndefined
  else
    if field response "type" === "newGlobal" then
      log_debug "Received newGlobal event from ${this.name} (ignoring)" [JStr name]
    else
      log_warn "Unknown message from ThreadActor: " [JObj response].

(** The proxy as its constructor leaves it: every slot empty, every queue
    empty. *)
Definition new_ThreadActorProxy (name : string) : ThreadActorProxy :=
  mkProxy name None None None None None None None None [] [] [] [].

(** The world right after [new ThreadActorProxy(name, connection)]; the
    registration with the connection is outside the trace. *)
Definition init (name : string) : World :=
  mkWorld (new_ThreadActorProxy name) []
    [Log debug "Created thread ${this.name}" [JStr name]].

(** ** Histories *)

(** One interaction with the proxy: a call of a public method, or the
    delivery of an inbound message by the connection. *)
Inductive Call : Type :=
  | CallAttach
  | CallResume (exceptionBreakpoints : ExceptionBreakpoints.t)
               (resumeLimitType : option ResumeLimitType.t)
  | CallInterrupt
  | CallDetach
  | CallFetchSources
  | CallFetchStackFrames (levels : float)
  | CallEvaluate (expr frameActorName : string)
  | CallReleaseMany (objectGripActorNames : list string)
  | Deliver (response : JsObject).

(** The world after a computation, whether it returned or threw. *)
Definition after {A} (m : M A) (w : World) : World := (m w).2.

Definition step (c : Call) : World -> World :=
  match c with
  | CallAttach => after attach
  | CallResume e l => after (resume e l)
  | CallInterrupt => after interrupt
  | CallDetach => after detach
  | CallFetchSources => after fetchSources
  | CallFetchStackFrames n => after (fetchStackFrames n)
  | CallEvaluate e f => after (evaluate e f)
  | CallReleaseMany l => after (releaseMany l)
  | Deliver r => after (receiveResponse r)
  end.

Definition steps (cs : list Call) (w : World) : World :=
  foldl (fun w c => step c w) w cs.

Definition is_detach (c : Call) : bool :=
  match c with CallDetach => true | _ => false end.

(** ** What a trace shows *)

(** The events emitted to listeners, the requests handed to the connection
    and the warnings logged, each in order. *)
Definition emitted (tr : list Effect) : list (string * list EventArg) :=
  omap (fun e => match e with Emit ev args => Some (ev, args) | _ => None end) tr.

Definition sent (tr : list Effect) : list JsObject :=
  omap (fun e => match e with SendRequest r => Some r | _ => None end) tr.

Definition warnings (tr : list Effect) : list string :=
  omap (fun e => match e with Log warn t _ => Some t | _ => None end) tr.

(** ** Well-formed worlds *)

(** The requests that still wait for a reply: the four lifecycle requests
    and the four queues. *)
Definition outstanding (p : ThreadActorProxy) : list PendingRequest :=
  option_list (pendingAttachRequest p) ++ option_list (pendingResumeRequest p)
  ++ option_list (pendingInterruptRequest p) ++ option_list (pendingDetachRequest p)
  ++ pendingSourcesRequests p ++ pendingStackFramesRequests p
  ++ pendingEvaluateRequests p ++ pendingReleaseRequests p.

Definition is_pending (store : list PromiseState) (r : PendingRequest) : bool :=
  match store !! r with
  | Some Pending => true
  | _ => false
  end.

(** Every request the proxy still holds belongs to a promise of its own,
    and that promise is pending.  This holds of the initial world and is
    kept by every call and every delivery ([wf_init], [wf_step]). *)
Definition wf (w : World) : bool :=
  bool_decide (NoDup (outstanding (this w)))
  && forallb (is_pending (promises w)) (outstanding (this w)).

(** What [rejectAll] does to the store. *)
Definition rejectEach (reason : JsVal) (l : list PendingRequest)
    (store : list PromiseState) : list PromiseState :=
  foldl (fun st r => settle r (Rejected reason) st) store l.

(** ** Shapes of inbound messages *)

(** The condition under which [receiveResponse] reaches its branch for a
    [frames] reply: none of the earlier tests of the chain succeeds. *)
Definition is_frames_reply (response : JsObject) : bool :=
  negb (field response "type" === "paused")
  && negb (field response "type" === "resumed")
  && negb (field response "type" === "detached")
  && negb (truthy (field response "sources"))
  && negb (field response "type" === "newSource")
  && truthy (field response "frames").

(** The condition under which [receiveResponse] reaches its last [else]:
    the message has none of the shapes the chain tests for. *)
Definition unrecognized (response : JsObject) : bool :=
  negb (field response "type" === "paused")
  && negb (field response "type" === "resumed")
  && negb (field response "type" === "detached")
  && negb (truthy (field response "sources"))
  && negb (field response "type" === "newSource")
  && negb (truthy (field response "frames"))
  && negb (field response "type" === "exited")
  && negb (field response "error" === "wrongState")
  && negb (length response =? 1).


(** A [paused] message whose reason is [reason]. *)
Definition paused_with (reason : string) (response : JsObject) : Prop :=
  field response "type" = JStr "paused" /\
  exists why, field response "why" = JObj why /\ field why "type" = JStr reason.

(** ** The FIFO experiment *)





(** ** Escaping, as the specification words it *)

(** Every backslash and every double quote of the expression is preceded
    by a backslash; every other character is left as it is. *)
Fixpoint escape_spec (s : string) : string :=
  match s with
  | EmptyString => EmptyString
  | String a s' =>
      if Ascii.eqb a backslash || Ascii.eqb a dquote
      then String backslash (String a (escape_spec s'))
      else String a (escape_spec s')
  end.

(** ** Sample messages *)

Definition paused_message (reason : string) : JsObject :=
  [("from", JStr "tab1"); ("type", JStr "paused");
   ("why", JObj [("type", JStr reason)])].

Definition evaluated_message (result : JsVal) : JsObject :=
  [("from", JStr "tab1"); ("type", JStr "paused");
   ("why", JObj [("type", JStr "clientEvaluated");
                 ("frameFinished", JObj [("return", result)])])].

Definition typed_message (type : string) : JsObject :=
  [("from", JStr "tab1"); ("type", JStr type)].


(** ** Sample worlds and histories *)

(** The world of a new proxy, and worlds reached from it by a few calls;
    they are stored evaluated. *)
Definition fresh_world : World := Eval vm_compute in init "tab1".

Definition attaching_world : World :=
  Eval vm_compute in steps [CallAttach] (init "tab1").

Definition busy_world : World :=
  Eval vm_compute in
  steps [CallAttach; CallFetchSources; CallFetchStackFrames 5%float;
         CallEvaluate "x" "frame1"; CallDetach] (init "tab1").

Definition resumed_world : World :=
  Eval vm_compute in
  steps [CallResume ExceptionBreakpoints.None None; CallEvaluate "f()" "frame1"]
    (init "tab1").

Definition say_hi : string :=
  "say " +:+ String dquote "hi" +:+ String dquote EmptyString.



(** ** Between attach and detach *)

(** Between [attach()] and [detach()] the detach slot stays empty and the
    attach request is either the one that [attach()] made or gone. *)
Definition attaching (p : Promise) (t : ThreadActorProxy) : Prop :=
  attachPromise t = Some p /\ detachPromise t = None /\
  (pendingAttachRequest t = Some p \/ pendingAttachRequest t = None).

(** ** Further shapes of calls and messages *)

Definition is_attach (c : Call) : bool :=
  match c with CallAttach => true | _ => false end.

(** The calls that fetch data: they go through a queue, not through a
    lifecycle slot. *)
Definition is_data_call (c : Call) : bool :=
  match c with
  | CallFetchSources | CallFetchStackFrames _ | CallEvaluate _ _
  | CallReleaseMany _ => true
  | _ => false
  end.

(** The [type] of the request that a data call sends. *)
Definition data_call_type (c : Call) : string :=
  match c with
  | CallFetchSources => "sources"
  | CallFetchStackFrames _ => "frames"
  | CallEvaluate _ _ => "clientEvaluate"
  | CallReleaseMany _ => "releaseMany"
  | _ => EmptyString
  end.

(** The pause reasons that [receivePaused] has a case for. *)
Definition handled_reasons : list string :=
  ["attached"; "interrupted"; "resumeLimit"; "breakpoint"; "exception";
   "clientEvaluated"].

(** The types of the requests the proxy sends. *)
Definition request_types : list string :=
  ["attach"; "resume"; "interrupt"; "detach"; "sources"; "frames";
   "clientEvaluate"; "releaseMany"].

(** [undefined] or [null]: the values whose properties cannot be read. *)
Definition nullish (v : JsVal) : bool :=
  match v with
  | JUndefined | JNull => true
  | _ => false
  end.

(** The condition under which [receiveResponse] reaches its branch for the
    acknowledgement of [releaseMany]: none of the earlier tests succeeds and
    the message has exactly one property. *)
Definition is_release_ack (response : JsObject) : bool :=
  negb (field response "type" === "paused")
  && negb (field response "type" === "resumed")
  && negb (field response "type" === "detached")
  && negb (truthy (field response "sources"))
  && negb (field response "type" === "newSource")
  && negb (truthy (field response "frames"))
  && negb (field response "type" === "exited")
  && negb (field response "error" === "wrongState")
  && (length response =? 1).

(** The condition under which [receiveResponse] reaches its branch for a
    [sources] reply. *)
Definition is_sources_reply (response : JsObject) : bool :=
  negb (field response "type" === "paused")
  && negb (field response "type" === "resumed")
  && negb (field response "type" === "detached")
  && truthy (field response "sources").

(** The inverse of the escaping, used to show that it loses nothing: a
    backslash makes the character after it stand for itself. *)
Fixpoint unescape (s : string) : string :=
  match s with
  | EmptyString => EmptyString
  | String a s' =>
      if Ascii.eqb a backslash then
        match s' with
        | String b s'' => String b (unescape s'')
        | EmptyString => EmptyString
        end
      else String a (unescape s')
  end.

(** The characters that [evaluate] escapes. *)
Definition needs_escape (a : ascii) : bool :=
  Ascii.eqb a backslash || Ascii.eqb a dquote.

Fixpoint string_forallb (f : ascii -> bool) (s : string) : bool :=
  match s with
  | EmptyString => true
  | String a s' => f a && string_forallb f s'
  end.

Definition line_break : ascii := "010"%char.

Definition two_lines : string :=
  "a" +:+ String line_break "b".

(** A world with one stack-frames request waiting. *)
Definition waiting_world : World :=
  Eval vm_compute in steps [CallFetchStackFrames 1%float] (init "tab1").

(** A world in which a detach has been confirmed, so that its result is
    cached, and a world in which [detach()] was called while the attach was
    still pending. *)
Definition detached_world : World :=
  Eval vm_compute in
  steps [CallAttach; Deliver (paused_message "attached"); CallDetach;
         Deliver (typed_message "detached")] (init "tab1").

Definition detaching_world : World :=
  Eval vm_compute in steps [CallAttach; CallDetach] (init "tab1").

(** Messages with a value that does not convert to a string: an object with
    a property [toString] of its own. *)
Definition unprintable : JsVal := JObj [("toString", JNum 1%float)].

Definition unprintable_source : JsObject :=
  [("from", JStr "tab1"); ("type", JStr "newSource");
   ("source", JObj [("actor", JStr "source7"); ("url", unprintable)])].

Definition unprintable_sources : JsObject :=
  [("from", JStr "tab1"); ("sources", JObj [("length", unprintable)])].

(** * Properties *)

Set Warnings "-clear-no-such-hyp".

(** ** Unfolding computations *)

Lemma forEach_reject reason l w :
  forEach (fun request => reject request reason) l w =
  (Normal tt, mkWorld (this w) (rejectEach reason l (promises w)) (trace w)).
Proof.
  revert w. induction l as [|r l IH]; intros w; cbn.
  - by destruct w.
  - unfold bind, reject at 1. cbn. by rewrite IH.
Qed.

Ltac crunch :=
  unfold attach, resume, interrupt, detach, fetchSources, fetchStackFrames,
    evaluate, releaseMany, receiveResponse, receivePaused,
    PendingRequests.enqueue, PendingRequests.resolveOne,
    PendingRequests.rejectAll, new_Promise, Promise_resolve, resolve,
    prop, ToString, log_debug, log_warn, sendRequest, emit, effect, this_name,
    read, assign, throw, bind, ret, after in *; cbn;
  repeat first
    [ rewrite forEach_reject; cbn
    | case_match; cbn in *; simplify_eq/=; try done ].

(** ** The store *)

Lemma is_pending_spec store r :
  is_pending store r = true <-> store !! r = Some Pending.
Proof. unfold is_pending. repeat case_match; naive_solver. Qed.

Lemma settle_length r st store : length (settle r st store) = length store.
Proof. unfold settle. repeat case_match; try done. apply length_insert. Qed.

Lemma settle_lookup_ne r r' st store :
  r ≠ r' -> settle r st store !! r' = store !! r'.
Proof.
  intros. unfold settle. repeat case_match; try done.
  by apply list_lookup_insert_ne.
Qed.

Lemma settle_lookup_pending r st store :
  store !! r = Some Pending -> settle r st store !! r = Some st.
Proof.
  intros H. unfold settle. rewrite H. apply list_lookup_insert_eq.
  by eapply lookup_lt_Some.
Qed.

(** A settled promise stays as it is: a promise is assigned once. *)
Lemma settle_lookup_settled r r' st st' store :
  store !! r' = Some st' -> st' ≠ Pending -> settle r st store !! r' = Some st'.
Proof.
  intros H Hne. destruct (decide (r = r')) as [->|]; [|by rewrite settle_lookup_ne].
  unfold settle. rewrite H. by destruct st'.
Qed.

Lemma rejectEach_length reason l store :
  length (rejectEach reason l store) = length store.
Proof.
  revert store. induction l as [|r l IH]; intros; cbn; [done|].
  unfold rejectEach in IH. by rewrite IH, settle_length.
Qed.

Lemma rejectEach_lookup_notin reason l store r :
  r ∉ l -> rejectEach reason l store !! r = store !! r.
Proof.
  revert store. induction l as [|x l IH]; intros store Hr; cbn; [done|].
  apply not_elem_of_cons in Hr as [? ?]. unfold rejectEach in IH.
  rewrite IH by done. by apply settle_lookup_ne.
Qed.

Lemma rejectEach_lookup_settled reason l store r st :
  store !! r = Some st -> st ≠ Pending ->
  rejectEach reason l store !! r = Some st.
Proof.
  revert store. induction l as [|x l IH]; intros store H Hne; cbn; [done|].
  apply IH; [|done]. by eapply settle_lookup_settled.
Qed.

Lemma rejectEach_lookup_in reason l store r :
  r ∈ l -> store !! r = Some Pending ->
  rejectEach reason l store !! r = Some (Rejected reason).
Proof.
  revert store. induction l as [|x l IH]; intros store Hr H; cbn.
  - by apply elem_of_nil in Hr.
  - destruct (decide (x = r)) as [->|Hne].
    + eapply rejectEach_lookup_settled; [|done]. by apply settle_lookup_pending.
    + apply elem_of_cons in Hr as [?|?]; [congruence|].
      apply IH; [done|]. by rewrite settle_lookup_ne.
Qed.

(** ** The invariant *)

Lemma wf_spec w :
  wf w = true <->
  NoDup (outstanding (this w)) /\
  forall r, r ∈ outstanding (this w) -> promises w !! r = Some Pending.
Proof.
  unfold wf. rewrite andb_true_iff, bool_decide_eq_true, forallb_forall.
  setoid_rewrite is_pending_spec. setoid_rewrite list_elem_of_In. done.
Qed.

Lemma wf_init name : wf (init name) = true.
Proof. reflexivity. Qed.

Lemma submseteq_NoDup (l k : list nat) : NoDup k -> l ⊆+ k -> NoDup l.
Proof.
  intros Hk (k' & Hsub & Hperm)%submseteq_sublist_l.
  rewrite <- Hperm in Hk. by eapply sublist_NoDup.
Qed.

(** The requests [new] that are outstanding after a step are among the
    [old] ones, the step has settled only requests it [removed], and so the
    invariant carries over. *)
Lemma wf_update (ps ps' : list PromiseState) (old new removed : list nat) :
  NoDup old -> (forall r, r ∈ old -> ps !! r = Some Pending) ->
  new ++ removed ⊆+ old ->
  (forall r, r ∉ removed -> r < length ps -> ps' !! r = ps !! r) ->
  NoDup new /\ forall r, r ∈ new -> ps' !! r = Some Pending.
Proof.
  intros Hnd Hp Hsub Hsame.
  pose proof (submseteq_NoDup _ _ Hnd Hsub) as Hnd'.
  apply NoDup_app in Hnd' as (Hnew & Hdisj & _).
  split; [done|]. intros r Hr.
  assert (r ∈ old) as Hold.
  { eapply elem_of_submseteq; [|exact Hsub]. apply elem_of_app. by left. }
  rewrite Hsame; [by apply Hp|by apply Hdisj|].
  eapply lookup_lt_Some. by apply Hp.
Qed.

(** The same when the step has created one promise, which is pending. *)
Lemma wf_update_fresh (ps ps' : list PromiseState) (old new removed : list nat) :
  NoDup old -> (forall r, r ∈ old -> ps !! r = Some Pending) ->
  new ++ removed ⊆+ length ps :: old ->
  (forall r, r ∉ removed -> r < length ps -> ps' !! r = ps !! r) ->
  ps' !! length ps = Some Pending ->
  NoDup new /\ forall r, r ∈ new -> ps' !! r = Some Pending.
Proof.
  intros Hnd Hp Hsub Hsame Hfresh.
  assert (NoDup (length ps :: old)) as Hnd0.
  { apply NoDup_cons. split; [|done]. intros Hin%Hp%lookup_lt_Some. lia. }
  pose proof (submseteq_NoDup _ _ Hnd0 Hsub) as Hnd'.
  apply NoDup_app in Hnd' as (Hnew & Hdisj & _).
  split; [done|]. intros r Hr.
  assert (r ∈ length ps :: old) as Hold.
  { eapply elem_of_submseteq; [|exact Hsub]. apply elem_of_app. by left. }
  apply elem_of_cons in Hold as [->|Hold]; [done|].
  rewrite Hsame; [by apply Hp|by apply Hdisj|].
  eapply lookup_lt_Some. by apply Hp.
Qed.

Ltac removed_of store :=
  lazymatch store with
  | ?a ++ _ => removed_of a
  | settle ?n _ ?a => let r := removed_of a in constr:(n :: r)
  | rejectEach _ ?l ?a => let r := removed_of a in constr:(l ++ r)
  | _ => constr:(@nil nat)
  end.

Ltac same_lookup :=
  let r := fresh "r" in let Hr := fresh "Hr" in let Hlt := fresh "Hlt" in
  intros r Hr Hlt;
  repeat first
    [ rewrite lookup_app_l
        by (rewrite ?rejectEach_length, ?settle_length, ?rejectEach_length; lia)
    | rewrite settle_lookup_ne by set_solver
    | rewrite rejectEach_lookup_notin by set_solver ];
  reflexivity.

Ltac wf_goal Hnd Hp :=
  lazymatch goal with
  | |- NoDup ?new /\ (forall r, r ∈ _ -> ?store !! r = Some Pending) =>
      let rem := removed_of store in
      first
        [ apply (wf_update _ store _ new rem Hnd Hp); [solve_submseteq|same_lookup]
        | apply (wf_update_fresh _ store _ new rem Hnd Hp);
          [solve_submseteq|same_lookup|
           by rewrite lookup_app_r, Nat.sub_diag by lia] ]
  end.

(** Every call and every delivery keeps the invariant, also a delivery
    that ends in a TypeError. *)
Lemma wf_step c w : wf w = true -> wf (step c w) = true.
Proof.
  intros H. destruct w as [[nm a1 a2 r1 r2 i1 i2 d1 d2 qs qf qe qr] ps tr].
  destruct c; unfold step.
  all: crunch.
  all: apply wf_spec in H as [Hnd Hp]; apply wf_spec;
    unfold outstanding in *; cbn in *.
  all: try (split; assumption).
  all: wf_goal Hnd Hp.
Qed.

Lemma wf_steps cs w : wf w = true -> wf (steps cs w) = true.
Proof.
  revert w. induction cs as [|c cs IH]; intros w H; cbn; [done|].
  apply IH. by apply wf_step.
Qed.

(** Every world that a history leads to from a new proxy is well formed. *)
Lemma wf_reachable name cs : wf (steps cs (init name)) = true.
Proof. apply wf_steps, wf_init. Qed.

(** The sample worlds are the worlds their histories lead to. *)
Example sample_worlds_reached :
  fresh_world = init "tab1" /\
  attaching_world = steps [CallAttach] (init "tab1") /\
  busy_world =
    steps [CallAttach; CallFetchSources; CallFetchStackFrames 5%float;
           CallEvaluate "x" "frame1"; CallDetach] (init "tab1") /\
  resumed_world =
    steps [CallResume ExceptionBreakpoints.None None; CallEvaluate "f()" "frame1"]
      (init "tab1").
Proof. vm_compute. by repeat split. Qed.

Local Arguments attach : simpl never.
Local Arguments resume : simpl never.
Local Arguments interrupt : simpl never.
Local Arguments detach : simpl never.
Local Arguments fetchSources : simpl never.
Local Arguments fetchStackFrames : simpl never.
Local Arguments evaluate : simpl never.
Local Arguments releaseMany : simpl never.
Local Arguments receiveResponse : simpl never.
Local Arguments settle : simpl never.
Local Arguments rejectEach : simpl never.

(** Rewrite with the equations that the case analysis has left. *)
Ltac use_eqs :=
  repeat match goal with
  | E : ?x = Some _ |- context [?x] => rewrite E
  | E : ?x = None |- context [?x] => rewrite E
  end.

(** ** Lifecycle calls *)

Lemma attach_cached w p :
  attachPromise (this w) = Some p ->
  attach w =
  (Normal (Some p),
   mkWorld (this w) (promises w)
     (trace w ++ [Log debug "Attaching thread ${this.name}" [JStr (_name (this w))];
                  Log warn "Attaching this thread has already been requested!" []])).
Proof.
  intros H. crunch. use_eqs. by rewrite <- app_assoc.
Qed.

Lemma attach_returns w :
  exists p, (attach w).1 = Normal (Some p) /\
            attachPromise (this (after attach w)) = Some p.
Proof. crunch; use_eqs; eauto. Qed.

(** Only [detach] clears the cached result of [attach]. *)
Lemma step_keeps_attachPromise c w p :
  is_detach c = false ->
  attachPromise (this w) = Some p ->
  attachPromise (this (step c w)) = Some p.
Proof.
  intros Hc H. destruct c; try done; unfold step; crunch.
Qed.

Lemma steps_keep_attachPromise cs w p :
  forallb (fun c => negb (is_detach c)) cs = true ->
  attachPromise (this w) = Some p ->
  attachPromise (this (steps cs w)) = Some p.
Proof.
  revert w. induction cs as [|c cs IH]; intros w Hcs H; cbn in *; [done|].
  apply andb_true_iff in Hcs as [Hc Hcs]. apply IH; [done|].
  apply step_keeps_attachPromise; [|done]. by destruct (is_detach c).
Qed.

(** C6. Calling [attach()] a second time, with any calls and deliveries in
    between except [detach()], returns the promise that the first call
    returned; the second call creates no promise, changes no field and
    sends nothing: it only logs, a debug line and the warning. *)
Theorem attach_twice_same_handle (w : World) (cs : list Call) :
  forallb (fun c => negb (is_detach c)) cs = true ->
  let w1 := steps cs (after attach w) in
  exists p,
    (attach w).1 = Normal (Some p) /\
    (attach w1).1 = Normal (Some p) /\
    this (after attach w1) = this w1 /\
    promises (after attach w1) = promises w1 /\
    trace (after attach w1) =
      trace w1 ++
      [Log debug "Attaching thread ${this.name}" [JStr (_name (this w1))];
       Log warn "Attaching this thread has already been requested!" []] /\
    sent (trace (after attach w1)) = sent (trace w1).
Proof.
  intros Hcs w1. destruct (attach_returns w) as (p & Hp & Hc).
  exists p. split; [done|].
  pose proof (steps_keep_attachPromise cs _ p Hcs Hc) as Hw1. fold w1 in Hw1.
  unfold after. rewrite (attach_cached w1 p Hw1). cbn.
  repeat split. unfold sent. rewrite omap_app. cbn. by rewrite app_nil_r.
Qed.

Lemma attach_twice_same_handle_witness :
  let w := init "tab1" in
  let cs := [CallFetchSources; Deliver (paused_message "attached"); CallInterrupt] in
  let w1 := steps cs (after attach w) in
  (attach w).1 = Normal (Some 0) /\ (attach w1).1 = Normal (Some 0) /\
  sent (trace (after attach w1)) = sent (trace w1).
Proof.
  intros w cs w1.
  destruct (attach_twice_same_handle w cs) as (p & H1 & H2 & _ & _ & _ & H3);
    [reflexivity|].
  split; [reflexivity|]. split; [reflexivity|]. exact H3.
Defined.

(** A call of [resume] that finds no cached result. *)
Lemma resume_fresh w e l :
  resumePromise (this w) = None ->
  resume e l w =
  (Normal (Some (length (promises w))),
   mkWorld
     (set_interruptPromise None
        (set_resumePromise (Some (length (promises w)))
           (set_pendingResumeRequest (Some (length (promises w))) (this w))))
     (promises w ++ [Pending])
     (trace w ++
      [Log debug "Resuming thread ${this.name}" [JStr (_name (this w))];
       SendRequest
         [("to", JStr (_name (this w))); ("type", JStr "resume");
          ("resumeLimit",
           match l with
           | Some t => JObj [("type", JStr (ResumeLimitType.str t))]
           | None => JUndefined
           end);
          ("pauseOnExceptions",
           match e with
           | ExceptionBreakpoints.None => JUndefined
           | _ => JBool true
           end);
          ("ignoreCaughtExceptions",
           match e with
           | ExceptionBreakpoints.Uncaught => JBool true
           | _ => JUndefined
           end)]])).
Proof.
  intros H. unfold resume, bind, this_name, log_debug, effect, read. cbn.
  rewrite H. destruct e; cbn;
    unfold new_Promise, bind, assign, sendRequest, effect, read; cbn;
    by rewrite <- app_assoc.
Qed.

(** A call of [interrupt] that finds no cached result. *)
Lemma interrupt_fresh w :
  interruptPromise (this w) = None ->
  interrupt w =
  (Normal (Some (length (promises w))),
   mkWorld
     (set_resumePromise None
        (set_interruptPromise (Some (length (promises w)))
           (set_pendingInterruptRequest (Some (length (promises w))) (this w))))
     (promises w ++ [Pending])
     (trace w ++ [Log debug "Interrupting thread ${this.name}" [JStr (_name (this w))];
                  SendRequest [("to", JStr (_name (this w)));
                               ("type", JStr "interrupt")]])).
Proof.
  intros H. unfold interrupt, bind, this_name, log_debug, effect, read. cbn.
  rewrite H. unfold new_Promise, bind, assign, sendRequest, effect, read; cbn.
  by rewrite <- app_assoc.
Qed.

(** A call of [interrupt] that finds a cached result returns it and does
    nothing but log a debug line. *)
Lemma interrupt_cached w p :
  interruptPromise (this w) = Some p ->
  interrupt w =
  (Normal (Some p),
   mkWorld (this w) (promises w)
     (trace w ++ [Log debug "Interrupting thread ${this.name}" [JStr (_name (this w))]])).
Proof.
  intros H. unfold interrupt, bind, this_name, log_debug, effect, read, ret. cbn.
  by rewrite H; cbn; rewrite H.
Qed.

(** A call of [detach] that finds no cached result. *)
Lemma detach_fresh w :
  detachPromise (this w) = None ->
  detach w =
  (Normal (Some (length (promises w))),
   mkWorld
     (set_attachPromise None
        (set_detachPromise (Some (length (promises w)))
           (set_pendingDetachRequest (Some (length (promises w))) (this w))))
     (promises w ++ [Pending])
     (trace w ++ [Log debug "Detaching thread ${this.name}" [JStr (_name (this w))];
                  SendRequest [("to", JStr (_name (this w)));
                               ("type", JStr "detach")]])).
Proof.
  intros H. unfold detach, bind, this_name, log_debug, effect, read. cbn.
  rewrite H. unfold new_Promise, bind, assign, sendRequest, effect, read; cbn.
  by rewrite <- app_assoc.
Qed.

(** C8. A call of [resume] that issues a request sends one message of type
    [resume] whose flags follow the exception-breakpoint argument: [All]
    gives [pauseOnExceptions] true and leaves [ignoreCaughtExceptions]
    undefined, [Uncaught] gives both true, [None] leaves both undefined;
    and without a step kind the message carries an undefined
    [resumeLimit]. *)
Theorem resume_exception_flags (w : World) (e : ExceptionBreakpoints.t)
    (l : option ResumeLimitType.t) :
  resumePromise (this w) = None ->
  exists request,
    trace (after (resume e l) w) =
      trace w ++ [Log debug "Resuming thread ${this.name}" [JStr (_name (this w))];
                  SendRequest request] /\
    field request "to" = JStr (_name (this w)) /\
    field request "type" = JStr "resume" /\
    (e = ExceptionBreakpoints.All ->
       field request "pauseOnExceptions" = JBool true /\
       field request "ignoreCaughtExceptions" = JUndefined) /\
    (e = ExceptionBreakpoints.Uncaught ->
       field request "pauseOnExceptions" = JBool true /\
       field request "ignoreCaughtExceptions" = JBool true) /\
    (e = ExceptionBreakpoints.None ->
       field request "pauseOnExceptions" = JUndefined /\
       field request "ignoreCaughtExceptions" = JUndefined) /\
    (l = None -> field request "resumeLimit" = JUndefined) /\
    (forall t, l = Some t ->
       field request "resumeLimit" = JObj [("type", JStr (ResumeLimitType.str t))]).
Proof.
  intros H. eexists. unfold after. rewrite (resume_fresh w e l H). cbn.
  split; [done|]. cbn. repeat split; intros; subst; by simplify_eq/=.
Qed.

Lemma resume_exception_flags_witness :
  exists request,
    sent (trace (after (resume ExceptionBreakpoints.Uncaught None) (init "tab1")))
      = [request] /\
    field request "pauseOnExceptions" = JBool true /\
    field request "ignoreCaughtExceptions" = JBool true /\
    field request "resumeLimit" = JUndefined.
Proof.
  destruct (resume_exception_flags (init "tab1") ExceptionBreakpoints.Uncaught None)
    as (request & Htr & _ & _ & _ & Hu & _ & Hl & _); [reflexivity|].
  exists request. rewrite Htr. split; [reflexivity|].
  destruct (Hu eq_refl) as [Hp Hi]. split; [exact Hp|]. split; [exact Hi|].
  exact (Hl eq_refl).
Defined.

(** C4. A call of [resume] that issues a request clears the cached result
    of [interrupt]: the next [interrupt()] creates a promise and sends an
    [interrupt] request.  Likewise a call of [interrupt] that issues a
    request clears the cached result of [resume]: the next [resume()]
    creates a promise and sends a [resume] request. *)
Theorem resume_interrupt_invalidate (w w' : World) (e e' : ExceptionBreakpoints.t)
    (l l' : option ResumeLimitType.t) :
  resumePromise (this w) = None ->
  interruptPromise (this w') = None ->
  (let w1 := after (resume e l) w in
   interruptPromise (this w1) = None /\
   (interrupt w1).1 = Normal (Some (length (promises w1))) /\
   promises (after interrupt w1) = promises w1 ++ [Pending] /\
   sent (trace (after interrupt w1)) =
     sent (trace w1) ++ [[("to", JStr (_name (this w))); ("type", JStr "interrupt")]])
  /\
  (let w1 := after interrupt w' in
   resumePromise (this w1) = None /\
   (resume e' l' w1).1 = Normal (Some (length (promises w1))) /\
   promises (after (resume e' l') w1) = promises w1 ++ [Pending] /\
   exists request,
     sent (trace (after (resume e' l') w1)) = sent (trace w1) ++ [request] /\
     field request "to" = JStr (_name (this w')) /\
     field request "type" = JStr "resume").
Proof.
  intros Hr Hi. split.
  - intros w1. subst w1. unfold after. rewrite (resume_fresh w e l Hr). cbn.
    split; [done|]. rewrite interrupt_fresh by done. cbn.
    repeat split. unfold sent. by rewrite omap_app.
  - intros w1. subst w1. unfold after. rewrite (interrupt_fresh w' Hi). cbn.
    split; [done|].
    rewrite resume_fresh by done. cbn. split; [done|]. split; [done|].
    eexists. split; [unfold sent; by rewrite omap_app|]. by cbn.
Qed.

Lemma resume_interrupt_invalidate_witness :
  let w := after interrupt (init "tab1") in
  let w' := after (resume ExceptionBreakpoints.None None) (init "tab1") in
  (interrupt (after (resume ExceptionBreakpoints.All None) w)).1 = Normal (Some 2) /\
  (resume ExceptionBreakpoints.All None (after interrupt w')).1 = Normal (Some 2).
Proof.
  intros w w'.
  destruct (resume_interrupt_invalidate w w' ExceptionBreakpoints.All
              ExceptionBreakpoints.All None None)
    as [(_ & H1 & _) (_ & H2 & _)]; [reflexivity|reflexivity|].
  split; [exact H1|exact H2].
Defined.

(** ** Deliveries of [paused] messages *)

Ltac unfold_receive :=
  unfold receiveResponse, receivePaused, PendingRequests.resolveOne,
    PendingRequests.rejectAll, Promise_resolve, resolve, prop, member,
    ToString, log_debug, log_warn, emit, effect, this_name, read, assign,
    throw, bind, ret.

Lemma receive_attached w response r :
  paused_with "attached" response ->
  pendingAttachRequest (this w) = Some r ->
  receiveResponse response w =
  (Normal tt,
   mkWorld
     (set_interruptPromise (Some (length (promises w)))
        (set_pendingAttachRequest None (this w)))
     (settle r (Resolved JUndefined) (promises w) ++ [Resolved JUndefined])
     (trace w ++ [Log debug "Received paused message of type ${pausedResponse.why.type}"
                    [JStr "attached"]])).
Proof.
  intros (Ht & why & Hw & Hy) Hr. unfold_receive. cbn.
  rewrite Ht, Hw. cbn. rewrite Hy. cbn. rewrite Hr. cbn.
  by rewrite settle_length.
Qed.

Lemma receive_attached_unsolicited w response :
  paused_with "attached" response ->
  pendingAttachRequest (this w) = None ->
  receiveResponse response w =
  (Normal tt,
   mkWorld (this w) (promises w)
     (trace w ++ [Log debug "Received paused message of type ${pausedResponse.why.type}"
                    [JStr "attached"];
                  Log warn "Received attached message without pending request" []])).
Proof.
  intros (Ht & why & Hw & Hy) Hr. unfold_receive. cbn.
  rewrite Ht, Hw. cbn. rewrite Hy. cbn. rewrite Hr. cbn.
  by rewrite <- app_assoc.
Qed.

Lemma receive_breakpoint w response reason :
  reason ∈ ["breakpoint"; "resumeLimit"; "exception"] ->
  paused_with reason response ->
  receiveResponse response w =
  (Normal tt,
   mkWorld
     (set_pendingResumeRequest None
        (set_pendingInterruptRequest None
           (set_resumePromise None
              (set_interruptPromise (Some (length (promises w))) (this w)))))
     (promises w ++ [Resolved JUndefined])
     (trace w ++ [Log debug "Received paused message of type ${pausedResponse.why.type}"
                    [JStr reason];
                  Emit "paused" [Value (field response "why")]])).
Proof.
  intros Hin (Ht & why & Hw & Hy). unfold_receive. cbn.
  rewrite Ht, Hw. cbn. rewrite Hy.
  repeat (apply elem_of_cons in Hin as [->|Hin]; [cbn; by rewrite <- app_assoc|]).
  by apply elem_of_nil in Hin.
Qed.

Lemma emitted_app tr tr' : emitted (tr ++ tr') = emitted tr ++ emitted tr'.
Proof. apply omap_app. Qed.

Lemma sent_app tr tr' : sent (tr ++ tr') = sent tr ++ sent tr'.
Proof. apply omap_app. Qed.

Lemma warnings_app tr tr' : warnings (tr ++ tr') = warnings tr ++ warnings tr'.
Proof. apply omap_app. Qed.

(** C1. A [paused] message with reason [attached] never emits an event;
    when an attach request is pending it resolves the promise of that
    request, clears the request and stores an already resolved promise in
    the interrupt slot.  A [paused] message with reason [breakpoint],
    [resumeLimit] or [exception] stores an already resolved promise in the
    interrupt slot, clears both fields of the resume slot, emits one
    [paused] event that carries the reason, and settles no promise that
    existed before: a pending resume request stays pending. *)
Theorem paused_routing (w0 w w' : World) (attached stopped : JsObject)
    (r : PendingRequest) (reason : string) :
  paused_with "attached" attached ->
  pendingAttachRequest (this w) = Some r ->
  promises w !! r = Some Pending ->
  reason ∈ ["breakpoint"; "resumeLimit"; "exception"] ->
  paused_with reason stopped ->
  ((receiveResponse attached w0).1 = Normal tt /\
   emitted (trace (after (receiveResponse attached) w0)) = emitted (trace w0))
  /\
  (let w1 := after (receiveResponse attached) w in
   promises w1 !! r = Some (Resolved JUndefined) /\
   pendingAttachRequest (this w1) = None /\
   (exists p, interruptPromise (this w1) = Some p /\
              promises w1 !! p = Some (Resolved JUndefined)) /\
   emitted (trace w1) = emitted (trace w))
  /\
  (let w1 := after (receiveResponse stopped) w' in
   (receiveResponse stopped w').1 = Normal tt /\
   (exists p, interruptPromise (this w1) = Some p /\
              promises w1 !! p = Some (Resolved JUndefined)) /\
   resumePromise (this w1) = None /\
   pendingResumeRequest (this w1) = None /\
   emitted (trace w1) =
     emitted (trace w') ++ [("paused", [Value (field stopped "why")])] /\
   (exists why, field stopped "why" = JObj why /\ field why "type" = JStr reason) /\
   (forall p, p < length (promises w') -> promises w1 !! p = promises w' !! p)).
Proof.
  intros Ha Hr Hp Hin Hs. split; [|split].
  - unfold after. destruct (pendingAttachRequest (this w0)) as [r0|] eqn:E.
    + rewrite (receive_attached w0 attached r0 Ha E). cbn.
      split; [done|]. rewrite emitted_app. cbn. by rewrite app_nil_r.
    + rewrite (receive_attached_unsolicited w0 attached Ha E). cbn.
      split; [done|]. rewrite emitted_app. cbn. by rewrite app_nil_r.
  - intros w1. subst w1. unfold after.
    rewrite (receive_attached w attached r Ha Hr). cbn. split.
    { rewrite lookup_app_l by (rewrite settle_length; by eapply lookup_lt_Some).
      by apply settle_lookup_pending. }
    split; [done|]. split.
    { eexists. split; [done|].
      rewrite lookup_app_r by (by rewrite settle_length).
      by rewrite settle_length, Nat.sub_diag. }
    rewrite emitted_app. cbn. by rewrite app_nil_r.
  - intros w1. subst w1. unfold after.
    rewrite (receive_breakpoint w' stopped reason) by done. cbn.
    split; [done|]. split.
    { eexists. split; [done|]. by rewrite lookup_app_r, Nat.sub_diag by lia. }
    split; [done|]. split; [done|]. split; [by rewrite emitted_app|].
    split; [by destruct Hs as (_ & ?)|].
    intros p Hlt. by rewrite lookup_app_l.
Qed.

Lemma paused_routing_witness :
  promises (after (receiveResponse (paused_message "attached")) attaching_world) !! 0
    = Some (Resolved JUndefined) /\
  promises resumed_world !! 0 = Some Pending /\
  promises (after (receiveResponse (paused_message "breakpoint")) resumed_world) !! 0
    = Some Pending /\
  emitted (trace (after (receiveResponse (paused_message "attached")) fresh_world))
    = [].
Proof.
  destruct (paused_routing fresh_world attaching_world resumed_world
              (paused_message "attached") (paused_message "breakpoint")
              0 "breakpoint")
    as ((_ & H0) & (H1 & _) & (_ & _ & _ & _ & _ & _ & H2)).
  - split; [reflexivity|]. eexists. split; reflexivity.
  - reflexivity.
  - reflexivity.
  - apply elem_of_cons. by left.
  - split; [reflexivity|]. eexists. split; reflexivity.
  - split; [exact H1|]. split; [reflexivity|].
    split; [|exact H0]. rewrite (H2 0); [reflexivity|]. vm_compute. lia.
Defined.

(** ** Deliveries of other messages *)

Lemma receive_unrecognized w response :
  unrecognized response = true ->
  receiveResponse response w =
  (Normal tt,
   mkWorld (this w) (promises w)
     (trace w ++
      [if field response "type" === "newGlobal"
       then Log debug "Received newGlobal event from ${this.name} (ignoring)"
              [JStr (_name (this w))]
       else Log warn "Unknown message from ThreadActor: " [JObj response]])).
Proof.
  unfold unrecognized. rewrite !andb_true_iff, !negb_true_iff.
  intros ((((((((H1 & H2) & H3) & H4) & H5) & H6) & H7) & H8) & H9).
  unfold_receive. cbn. rewrite H1, H2, H3, H4, H5, H6, H7, H8, H9.
  by destruct (field response "type" === "newGlobal").
Qed.

(** C9. On a message that has none of the shapes the dispatcher tests for,
    [receiveResponse] returns normally; it leaves every field of the proxy
    and every promise as they were, emits no event and sends no request.
    A message of type [newGlobal] only produces a debug line, so no
    warning; any other such message produces exactly one warning. *)
Theorem unrecognized_message_ignored (w : World) (response : JsObject) :
  unrecognized response = true ->
  let w1 := after (receiveResponse response) w in
  (receiveResponse response w).1 = Normal tt /\
  this w1 = this w /\
  promises w1 = promises w /\
  emitted (trace w1) = emitted (trace w) /\
  sent (trace w1) = sent (trace w) /\
  (field response "type" = JStr "newGlobal" ->
     trace w1 =
       trace w ++ [Log debug "Received newGlobal event from ${this.name} (ignoring)"
                     [JStr (_name (this w))]] /\
     warnings (trace w1) = warnings (trace w)) /\
  (field response "type" ≠ JStr "newGlobal" ->
     trace w1 = trace w ++ [Log warn "Unknown message from ThreadActor: " [JObj response]]).
Proof.
  intros H w1. subst w1. unfold after. rewrite (receive_unrecognized w response H).
  cbn. split; [done|]. split; [done|]. split; [done|].
  rewrite emitted_app, sent_app.
  split; [by destruct (_ === _); cbn; rewrite app_nil_r|].
  split; [by destruct (_ === _); cbn; rewrite app_nil_r|].
  split.
  - intros ->. cbn. split; [done|]. rewrite warnings_app. cbn. by rewrite app_nil_r.
  - intros Hne. destruct (field response "type") as [| | | |s| |] eqn:E; try done.
    cbn. destruct (String.eqb_spec s "newGlobal") as [->|]; done.
Qed.

Lemma unrecognized_message_ignored_witness :
  let w := after fetchSources (after attach (init "tab1")) in
  this (after (receiveResponse (typed_message "newGlobal")) w) = this w /\
  warnings (trace (after (receiveResponse (typed_message "newGlobal")) w))
    = warnings (trace w) /\
  warnings (trace (after (receiveResponse (typed_message "willInterrupt")) w))
    = warnings (trace w) ++ ["Unknown message from ThreadActor: "].
Proof.
  intros w.
  destruct (unrecognized_message_ignored w (typed_message "newGlobal"))
    as (_ & H1 & _ & _ & _ & H2 & _); [reflexivity|].
  destruct (unrecognized_message_ignored w (typed_message "willInterrupt"))
    as (_ & _ & _ & _ & _ & _ & H3); [reflexivity|].
  split; [exact H1|]. split; [exact (proj2 (H2 eq_refl))|].
  rewrite H3 by done. reflexivity.
Defined.

(** C5. On a [detached] message the dispatcher returns normally.  It
    resolves the pending detach request if there is one, and otherwise
    logs a warning.  It then rejects every queued stack-frames request and
    every queued evaluate request with the reason [Detached] and empties
    both queues.  The queues of sources and release requests keep their
    contents, and every request in them stays pending. *)
Theorem detached_flushes_frames_and_evaluate (w : World) (response : JsObject) :
  wf w = true ->
  field response "type" = JStr "detached" ->
  let w1 := after (receiveResponse response) w in
  (receiveResponse response w).1 = Normal tt /\
  match pendingDetachRequest (this w) with
  | Some r =>
      promises w1 !! r = Some (Resolved JUndefined) /\
      trace w1 = trace w ++ [Log debug "Thread ${this.name} detached" [JStr (_name (this w))]]
  | None =>
      trace w1 =
        trace w ++
        [Log debug "Thread ${this.name} detached" [JStr (_name (this w))];
         Log warn "Thread ${this.name} detached without a corresponding request"
           [JStr (_name (this w))]]
  end /\
  pendingDetachRequest (this w1) = None /\
  (forall r, r ∈ pendingStackFramesRequests (this w) ++ pendingEvaluateRequests (this w) ->
     promises w1 !! r = Some (Rejected (JStr "Detached"))) /\
  pendingStackFramesRequests (this w1) = [] /\
  pendingEvaluateRequests (this w1) = [] /\
  pendingSourcesRequests (this w1) = pendingSourcesRequests (this w) /\
  pendingReleaseRequests (this w1) = pendingReleaseRequests (this w) /\
  (forall r, r ∈ pendingSourcesRequests (this w) ++ pendingReleaseRequests (this w) ->
     promises w1 !! r = Some Pending).
Proof.
  intros [Hnd Hp]%wf_spec Ht w1. subst w1. unfold after.
  destruct w as [[nm a1 a2 r1 r2 i1 i2 d1 d2 qs qf qe qr] ps tr].
  unfold outstanding in *. cbn in *.
  unfold_receive. cbn. rewrite Ht. cbn.
  rewrite !NoDup_app in Hnd.
  destruct d1 as [d|]; cbn; rewrite !forEach_reject; cbn.
  - assert (ps !! d = Some Pending) as Hd by (apply Hp; set_solver).
    split; [done|]. split.
    { split; [|done].
      eapply rejectEach_lookup_settled; [|done].
      eapply rejectEach_lookup_settled; [|done].
      by apply settle_lookup_pending. }
    split; [done|]. split.
    { intros r [Hr|Hr]%elem_of_app.
      - eapply rejectEach_lookup_settled; [|done].
        apply rejectEach_lookup_in; [done|].
        rewrite settle_lookup_ne by set_solver. apply Hp. set_solver.
      - apply rejectEach_lookup_in; [done|].
        rewrite rejectEach_lookup_notin by set_solver.
        rewrite settle_lookup_ne by set_solver. apply Hp. set_solver. }
    repeat (split; [done|]).
    intros r Hr.
    rewrite !rejectEach_lookup_notin by set_solver.
    rewrite settle_lookup_ne by set_solver. apply Hp. set_solver.
  - split; [done|]. split; [by rewrite <- app_assoc|].
    split; [done|]. split.
    { intros r [Hr|Hr]%elem_of_app.
      - eapply rejectEach_lookup_settled; [|done].
        apply rejectEach_lookup_in; [done|]. apply Hp. set_solver.
      - apply rejectEach_lookup_in; [done|].
        rewrite rejectEach_lookup_notin by set_solver. apply Hp. set_solver. }
    repeat (split; [done|]).
    intros r Hr.
    rewrite !rejectEach_lookup_notin by set_solver. apply Hp. set_solver.
Qed.


Lemma detached_flushes_frames_and_evaluate_witness :
  let w1 := after (receiveResponse (typed_message "detached")) busy_world in
  promises w1 !! 1 = Some Pending /\
  promises w1 !! 2 = Some (Rejected (JStr "Detached")) /\
  promises w1 !! 3 = Some (Rejected (JStr "Detached")) /\
  promises w1 !! 4 = Some (Resolved JUndefined).
Proof.
  intros w1.
  destruct (detached_flushes_frames_and_evaluate busy_world (typed_message "detached"))
    as (_ & H1 & _ & H2 & _ & _ & _ & _ & H3); [reflexivity|reflexivity|].
  split; [apply H3; vm_compute; repeat constructor|].
  split; [apply H2; vm_compute; repeat constructor|].
  split; [apply H2; vm_compute; repeat constructor|].
  exact (proj1 H1).
Defined.

Lemma receive_resumed w response r :
  field response "type" = JStr "resumed" ->
  pendingResumeRequest (this w) = Some r ->
  receiveResponse response w =
  (Normal tt,
   mkWorld (set_pendingResumeRequest None (this w))
     (settle r (Resolved JUndefined) (promises w))
     (trace w ++ [Log debug "Received resumed event from ${this.name}"
                    [JStr (_name (this w))]])).
Proof.
  intros Ht Hr. unfold_receive. cbn. rewrite Ht. cbn. by rewrite Hr.
Qed.

Lemma receive_resumed_unsolicited w response :
  field response "type" = JStr "resumed" ->
  pendingResumeRequest (this w) = None ->
  receiveResponse response w =
  (Normal tt,
   mkWorld (this w) (promises w)
     (trace w ++ [Log debug "Received resumed event from ${this.name}"
                    [JStr (_name (this w))];
                  Log warn "Received resumed reply without pending request" []])).
Proof.
  intros Ht Hr. unfold_receive. cbn. rewrite Ht. cbn. rewrite Hr. cbn.
  by rewrite <- app_assoc.
Qed.

(** What a [clientEvaluated] message does to the resume slot and to the
    promises that are not queued evaluations: whether the delivery returns
    or ends in a TypeError. *)
Lemma receive_clientEvaluated w response :
  paused_with "clientEvaluated" response ->
  let w1 := after (receiveResponse response) w in
  resumePromise (this w1) = None /\
  pendingResumeRequest (this w1) = pendingResumeRequest (this w) /\
  _name (this w1) = _name (this w) /\
  forall r, r < length (promises w) -> r ∉ pendingEvaluateRequests (this w) ->
            promises w1 !! r = promises w !! r.
Proof.
  intros (Ht & why & Hw & Hy) w1. subst w1. unfold after. unfold_receive. cbn.
  rewrite Ht, Hw. cbn. rewrite Hy. cbn.
  destruct (field why "frameFinished") as [| | | | | |o]; cbn;
    try (repeat split; intros; by rewrite lookup_app_l).
  all: destruct (pendingEvaluateRequests (this w)) as [|q qe] eqn:E; cbn;
    repeat split; intros;
    rewrite ?settle_lookup_ne by set_solver; by rewrite lookup_app_l.
Qed.

Lemma wf_pending w r :
  wf w = true -> r ∈ outstanding (this w) -> promises w !! r = Some Pending.
Proof. intros [_ Hp]%wf_spec. apply Hp. Qed.

Lemma wf_resume_not_evaluate w r :
  wf w = true -> pendingResumeRequest (this w) = Some r ->
  promises w !! r = Some Pending /\ r ∉ pendingEvaluateRequests (this w).
Proof.
  intros [Hnd Hp]%wf_spec Hr.
  destruct w as [[nm a1 a2 r1 r2 i1 i2 d1 d2 qs qf qe qr] ps tr].
  unfold outstanding in *. cbn in *. subst r1. cbn in *.
  split.
  - apply Hp. rewrite !elem_of_app, elem_of_cons. tauto.
  - apply NoDup_app in Hnd as (_ & _ & Hnd). apply NoDup_cons in Hnd as [Hnot _].
    rewrite !not_elem_of_app in Hnot. tauto.
Qed.

(** C10. A [clientEvaluated] pause clears the cached resume promise and
    keeps the pending resume request, so the [resumed] message that
    follows resolves the promise of that request and logs no warning.  A
    [resumeLimit], [breakpoint] or [exception] pause clears both, so the
    [resumed] message that follows finds no request: it logs the warning
    for an unsolicited reply and the promise stays pending. *)
Theorem clientEvaluated_keeps_resume_request (w : World)
    (evaluated stopped resumed : JsObject) (r : PendingRequest) (reason : string) :
  wf w = true ->
  pendingResumeRequest (this w) = Some r ->
  paused_with "clientEvaluated" evaluated ->
  reason ∈ ["breakpoint"; "resumeLimit"; "exception"] ->
  paused_with reason stopped ->
  field resumed "type" = JStr "resumed" ->
  (let w1 := after (receiveResponse evaluated) w in
   let w2 := after (receiveResponse resumed) w1 in
   resumePromise (this w1) = None /\
   pendingResumeRequest (this w1) = Some r /\
   promises w1 !! r = Some Pending /\
   promises w2 !! r = Some (Resolved JUndefined) /\
   pendingResumeRequest (this w2) = None /\
   trace w2 = trace w1 ++ [Log debug "Received resumed event from ${this.name}"
                             [JStr (_name (this w))]] /\
   warnings (trace w2) = warnings (trace w1))
  /\
  (let w1 := after (receiveResponse stopped) w in
   let w2 := after (receiveResponse resumed) w1 in
   resumePromise (this w1) = None /\
   pendingResumeRequest (this w1) = None /\
   promises w2 !! r = Some Pending /\
   trace w2 = trace w1 ++ [Log debug "Received resumed event from ${this.name}"
                             [JStr (_name (this w))];
                           Log warn "Received resumed reply without pending request" []]).
Proof.
  intros Hwf Hr He Hin Hs Hres.
  destruct (wf_resume_not_evaluate w r Hwf Hr) as [Hp Hne].
  split.
  - destruct (receive_clientEvaluated w evaluated He) as (H1 & H2 & H3 & H4).
    intros w1 w2. subst w2. fold w1 in H1, H2, H3, H4. rewrite Hr in H2.
    assert (promises w1 !! r = Some Pending) as Hp1.
    { rewrite H4; [done| |done]. by eapply lookup_lt_Some. }
    unfold after at 1 2 3 4. rewrite (receive_resumed w1 resumed r Hres H2). cbn.
    rewrite H3.
    repeat (split; [done|]).
    split; [by apply settle_lookup_pending|].
    repeat (split; [done|]).
    rewrite warnings_app. cbn. by rewrite app_nil_r.
  - intros w1 w2. subst w2 w1. unfold after.
    rewrite (receive_breakpoint w stopped reason Hin Hs). cbn.
    rewrite receive_resumed_unsolicited by done. cbn.
    repeat (split; [done|]).
    split; [|done]. rewrite lookup_app_l; [done|]. by eapply lookup_lt_Some.
Qed.

Lemma clientEvaluated_keeps_resume_request_witness :
  let w1 := after (receiveResponse (evaluated_message (JStr "done"))) resumed_world in
  promises (after (receiveResponse (typed_message "resumed")) w1) !! 0
    = Some (Resolved JUndefined) /\
  let w1' := after (receiveResponse (paused_message "breakpoint")) resumed_world in
  promises (after (receiveResponse (typed_message "resumed")) w1') !! 0
    = Some Pending.
Proof.
  destruct (clientEvaluated_keeps_resume_request resumed_world
              (evaluated_message (JStr "done")) (paused_message "breakpoint")
              (typed_message "resumed") 0 "breakpoint")
    as [(_ & _ & _ & H1 & _) (_ & _ & H2 & _)].
  - reflexivity.
  - reflexivity.
  - split; [reflexivity|]. eexists. split; reflexivity.
  - apply elem_of_cons. by left.
  - split; [reflexivity|]. eexists. split; reflexivity.
  - reflexivity.
  - split; [exact H1|exact H2].
Defined.

(** ** Attach and detach *)

Lemma attach_fresh w :
  attachPromise (this w) = None ->
  attach w =
  (Normal (Some (length (promises w))),
   mkWorld
     (set_detachPromise None
        (set_attachPromise (Some (length (promises w)))
           (set_pendingAttachRequest (Some (length (promises w))) (this w))))
     (promises w ++ [Pending])
     (trace w ++ [Log debug "Attaching thread ${this.name}" [JStr (_name (this w))];
                  SendRequest [("to", JStr (_name (this w))); ("type", JStr "attach");
                               ("options", JObj [("useSourceMaps", JBool true)])]])).
Proof.
  intros H. unfold attach, bind, this_name, log_debug, effect, read. cbn.
  rewrite H. unfold new_Promise, bind, assign, sendRequest, effect, read; cbn.
  by rewrite <- app_assoc.
Qed.

Lemma step_keeps_attaching c w p :
  is_detach c = false -> attaching p (this w) -> attaching p (this (step c w)).
Proof.
  intros Hc (H1 & H2 & H3). unfold attaching.
  destruct c; try done; unfold step; crunch; use_eqs; try done.
  all: intuition congruence.
Qed.

Lemma steps_keep_attaching cs w p :
  forallb (fun c => negb (is_detach c)) cs = true ->
  attaching p (this w) -> attaching p (this (steps cs w)).
Proof.
  revert w. induction cs as [|c cs IH]; intros w Hcs H; cbn in *; [done|].
  apply andb_true_iff in Hcs as [Hc Hcs]. apply IH; [done|].
  apply step_keeps_attaching; [|done]. by destruct (is_detach c).
Qed.

(** C3, as amended.  Issuing [attach], not its success, clears the cached
    result of [detach], and the success of the attach stores an already
    resolved promise in the interrupt slot.  So when [attach()] issues a
    request and the reply arrives while that request is pending, with no
    [detach()] called in between, the attach promise is resolved and the
    next [detach()] creates a promise and sends a [detach] request.  And
    after any [attached] reply that finds the attach request pending, the
    next [interrupt()] returns an already resolved promise and sends
    nothing. *)
Theorem attach_then_success (w w' : World) (cs : list Call) (attached : JsObject)
    (r r' : PendingRequest) :
  wf w = true ->
  attachPromise (this w) = None ->
  forallb (fun c => negb (is_detach c)) cs = true ->
  pendingAttachRequest (this (steps cs (after attach w))) = Some r ->
  pendingAttachRequest (this w') = Some r' ->
  paused_with "attached" attached ->
  (let w1 := steps cs (after attach w) in
   let w2 := after (receiveResponse attached) w1 in
   detachPromise (this (after attach w)) = None /\
   (attach w).1 = Normal (Some r) /\
   promises w2 !! r = Some (Resolved JUndefined) /\
   (detach w2).1 = Normal (Some (length (promises w2))) /\
   promises (after detach w2) = promises w2 ++ [Pending] /\
   sent (trace (after detach w2)) =
     sent (trace w2) ++ [[("to", JStr (_name (this w2))); ("type", JStr "detach")]])
  /\
  (let w2 := after (receiveResponse attached) w' in
   exists p,
     (interrupt w2).1 = Normal (Some p) /\
     promises w2 !! p = Some (Resolved JUndefined) /\
     promises (after interrupt w2) = promises w2 /\
     sent (trace (after interrupt w2)) = sent (trace w2)).
Proof.
  intros Hwf Ha Hcs Hr Hr' Hatt. split.
  - intros w1 w2.
    assert (attaching (length (promises w)) (this w1)) as (H1 & H2 & H3).
    { apply steps_keep_attaching; [done|]. unfold after.
      rewrite (attach_fresh w Ha). by repeat split; [..|left]. }
    fold w1 in Hr. destruct H3 as [H3|H3]; [|congruence].
    assert (r = length (promises w)) as Hr0 by congruence.
    assert (promises w1 !! r = Some Pending) as Hp.
    { apply wf_pending.
      - apply wf_steps. by apply (wf_step CallAttach).
      - unfold outstanding. rewrite Hr. cbn. apply elem_of_cons. by left. }
    assert (w2 =
      mkWorld
        (set_interruptPromise (Some (length (promises w1)))
           (set_pendingAttachRequest None (this w1)))
        (settle r (Resolved JUndefined) (promises w1) ++ [Resolved JUndefined])
        (trace w1 ++ [Log debug "Received paused message of type ${pausedResponse.why.type}"
                        [JStr "attached"]])) as Hw2.
    { unfold w2, after. by rewrite (receive_attached w1 attached r Hatt Hr). }
    clearbody w2. subst w2. cbn.
    split; [unfold after; by rewrite (attach_fresh w Ha)|].
    split; [by rewrite (attach_fresh w Ha), Hr0|]. split.
    { rewrite lookup_app_l by (rewrite settle_length; by eapply lookup_lt_Some).
      by apply settle_lookup_pending. }
    unfold after. rewrite detach_fresh by done. cbn.
    split; [done|]. split; [done|]. by rewrite sent_app.
  - intros w2. subst w2. unfold after.
    rewrite (receive_attached w' attached r' Hatt Hr'). cbn.
    exists (length (promises w')).
    rewrite (interrupt_cached _ (length (promises w'))) by done. cbn.
    split; [done|]. split.
    { by rewrite lookup_app_r, settle_length, Nat.sub_diag by (by rewrite settle_length). }
    split; [done|]. rewrite sent_app. cbn. by rewrite app_nil_r.
Qed.

Lemma attach_then_success_witness :
  let w2 := after (receiveResponse (paused_message "attached"))
              (steps [CallFetchSources] (after attach detached_world)) in
  let w2' := after (receiveResponse (paused_message "attached")) detaching_world in
  detachPromise (this detached_world) = Some 2 /\
  detachPromise (this (after attach detached_world)) = None /\
  (detach w2).1 = Normal (Some 6) /\
  promises (after detach w2) = promises w2 ++ [Pending] /\
  detachPromise (this w2') = Some 1 /\
  (interrupt w2').1 = Normal (Some 2) /\
  sent (trace (after interrupt w2')) = sent (trace w2').
Proof.
  destruct (attach_then_success detached_world detaching_world [CallFetchSources]
              (paused_message "attached") 3 0)
    as ((H0 & _ & _ & H1 & H2 & _) & (p & Hp & _ & _ & H3)).
  - reflexivity.
  - reflexivity.
  - reflexivity.
  - reflexivity.
  - reflexivity.
  - split; [reflexivity|]. eexists. split; reflexivity.
  - split; [reflexivity|]. split; [exact H0|]. split; [exact H1|].
    split; [exact H2|]. split; [reflexivity|]. split; [reflexivity|exact H3].
Defined.

(** C3, the claim as stated fails.  [attach()], then [detach()] before the
    reply: the [attached] message makes the attach succeed (promise 0 is
    resolved), yet the detach slot still holds promise 1, so the next
    [detach()] returns that cached promise, creates none and sends
    nothing. *)
Lemma attach_success_keeps_cached_detach :
  let w := steps [CallAttach; CallDetach] (init "tab1") in
  let w2 := after (receiveResponse (paused_message "attached")) w in
  (attach (init "tab1")).1 = Normal (Some 0) /\
  pendingAttachRequest (this w) = Some 0 /\
  promises w !! 0 = Some Pending /\
  promises w2 !! 0 = Some (Resolved JUndefined) /\
  detachPromise (this w2) = Some 1 /\
  (detach w2).1 = Normal (Some 1) /\
  (detach w2).1 <> Normal (Some (length (promises w2))) /\
  promises (after detach w2) = promises w2 /\
  sent (trace (after detach w2)) = sent (trace w2).
Proof. vm_compute. repeat split. discriminate. Qed.

(** ** Evaluation *)

(** The two passes of [replace] in the source escape exactly the
    backslashes and the double quotes. *)
Lemma escapedExpression_spec expr : escapedExpression expr = escape_spec expr.
Proof.
  unfold escapedExpression. induction expr as [|a s IH]; [done|].
  cbn [replace_all escape_spec].
  destruct (Ascii.eqb_spec a backslash) as [->|Hb].
  - change (replace_all dquote (String backslash (String dquote EmptyString))
              (String backslash (String backslash
                 (replace_all backslash
                    (String backslash (String backslash EmptyString)) s))) =
            String backslash (String backslash (escape_spec s))).
    cbn [replace_all]. change (Ascii.eqb backslash dquote) with false.
    cbn iota. by rewrite IH.
  - cbn [orb replace_all].
    destruct (Ascii.eqb_spec a dquote) as [->|Hq]; rewrite IH; done.
Qed.




(** ** The queue of stack-frames requests *)






Lemma deliver_frames_empty w d :
  is_frames_reply d = true ->
  pendingStackFramesRequests (this w) = [] ->
  pendingStackFramesRequests (this (step (Deliver d) w)) = [].
Proof.
  unfold is_frames_reply. rewrite !andb_true_iff, !negb_true_iff.
  intros (((((H1 & H2) & H3) & H4) & H5) & H6) Hq.
  unfold step, after. unfold_receive. cbn.
  rewrite H1, H2, H3, H4, H5, H6.
  destruct (printable (js_length (field d "frames"))); cbn; by rewrite ?Hq.
Qed.









(** * Further properties *)

(** ** The attach and detach slots *)

Lemma detach_cached w p :
  detachPromise (this w) = Some p ->
  detach w =
  (Normal (Some p),
   mkWorld (this w) (promises w)
     (trace w ++ [Log debug "Detaching thread ${this.name}" [JStr (_name (this w))];
                  Log warn "Detaching this thread has already been requested!" []])).
Proof.
  intros H. crunch. use_eqs. by rewrite <- app_assoc.
Qed.

Lemma detach_returns w :
  exists p, (detach w).1 = Normal (Some p) /\
            detachPromise (this (after detach w)) = Some p.
Proof. crunch; use_eqs; eauto. Qed.

(** Only [attach] clears the cached result of [detach]. *)
Lemma step_keeps_detachPromise c w p :
  is_attach c = false ->
  detachPromise (this w) = Some p ->
  detachPromise (this (step c w)) = Some p.
Proof.
  intros Hc H. destruct c; try done; unfold step; crunch.
Qed.

Lemma steps_keep_detachPromise cs w p :
  forallb (fun c => negb (is_attach c)) cs = true ->
  detachPromise (this w) = Some p ->
  detachPromise (this (steps cs w)) = Some p.
Proof.
  revert w. induction cs as [|c cs IH]; intros w Hcs H; cbn in *; [done|].
  apply andb_true_iff in Hcs as [Hc Hcs]. apply IH; [done|].
  apply step_keeps_detachPromise; [|done]. by destruct (is_attach c).
Qed.

(** X1. Calling [detach()] again, with any calls and deliveries in between
    except [attach()], returns the promise of the first call, even after
    the [detached] reply has arrived; the second call creates no promise,
    changes no field, sends nothing and logs the warning. *)
Theorem detach_twice_same_handle (w : World) (cs : list Call) :
  forallb (fun c => negb (is_attach c)) cs = true ->
  let w1 := steps cs (after detach w) in
  exists p,
    (detach w).1 = Normal (Some p) /\
    (detach w1).1 = Normal (Some p) /\
    this (after detach w1) = this w1 /\
    promises (after detach w1) = promises w1 /\
    sent (trace (after detach w1)) = sent (trace w1) /\
    warnings (trace (after detach w1)) =
      warnings (trace w1) ++ ["Detaching this thread has already been requested!"].
Proof.
  intros Hcs w1. destruct (detach_returns w) as (p & Hp & Hc).
  exists p. split; [done|].
  pose proof (steps_keep_detachPromise cs _ p Hcs Hc) as Hw1. fold w1 in Hw1.
  unfold after. rewrite (detach_cached w1 p Hw1). cbn.
  rewrite sent_app, warnings_app. cbn. by rewrite app_nil_r.
Qed.

Lemma detach_twice_same_handle_witness :
  let cs := [CallFetchSources; Deliver (typed_message "detached"); CallInterrupt] in
  let w1 := steps cs (after detach attaching_world) in
  (detach attaching_world).1 = Normal (Some 1) /\
  (detach w1).1 = Normal (Some 1) /\
  sent (trace (after detach w1)) = sent (trace w1).
Proof.
  intros cs w1.
  destruct (detach_twice_same_handle attaching_world cs)
    as (p & H1 & H2 & _ & _ & H3 & _); [reflexivity|].
  split; [reflexivity|]. split; [reflexivity|]. exact H3.
Defined.

(** The two slots are never both occupied. *)
Lemma step_keeps_exclusive c w :
  attachPromise (this w) = None \/ detachPromise (this w) = None ->
  attachPromise (this (step c w)) = None \/ detachPromise (this (step c w)) = None.
Proof.
  intros H. destruct c; unfold step; crunch; use_eqs; tauto.
Qed.

(** X2. In every world that a history of calls and deliveries leads to
    from a new proxy, the cached results of [attach] and of [detach] are
    not both present: issuing one clears the other, and nothing else sets
    them. *)
Theorem attach_detach_never_both_cached (name : string) (cs : list Call) :
  let w := steps cs (init name) in
  attachPromise (this w) = None \/ detachPromise (this w) = None.
Proof.
  cbn. generalize (init name) (or_introl eq_refl :
    attachPromise (this (init name)) = None \/ detachPromise (this (init name)) = None).
  induction cs as [|c cs IH]; intros w H; [done|].
  change (steps (c :: cs) w) with (steps cs (step c w)).
  apply IH. by apply step_keeps_exclusive.
Qed.

(** Only [attach] sets the cached result of [attach]. *)
Lemma step_keeps_attach_empty c w :
  is_attach c = false ->
  attachPromise (this w) = None ->
  attachPromise (this (step c w)) = None.
Proof.
  intros Hc H. destruct c; try done; unfold step; crunch.
Qed.

Lemma steps_keep_attach_empty cs w :
  forallb (fun c => negb (is_attach c)) cs = true ->
  attachPromise (this w) = None ->
  attachPromise (this (steps cs w)) = None.
Proof.
  revert w. induction cs as [|c cs IH]; intros w Hcs H; cbn in *; [done|].
  apply andb_true_iff in Hcs as [Hc Hcs]. apply IH; [done|].
  apply step_keeps_attach_empty; [|done]. by destruct (is_attach c).
Qed.

(** X3. A [detach()] that issues a request clears the cached result of
    [attach]: after it, and after any calls and deliveries other than
    [attach()], the next [attach()] creates a promise and sends an
    [attach] request, whether or not the detach has been confirmed. *)
Theorem detach_then_attach_reissues (w : World) (cs : list Call) :
  detachPromise (this w) = None ->
  forallb (fun c => negb (is_attach c)) cs = true ->
  let w1 := steps cs (after detach w) in
  (attach w1).1 = Normal (Some (length (promises w1))) /\
  promises (after attach w1) = promises w1 ++ [Pending] /\
  sent (trace (after attach w1)) =
    sent (trace w1) ++
    [[("to", JStr (_name (this w1))); ("type", JStr "attach");
      ("options", JObj [("useSourceMaps", JBool true)])]] /\
  detachPromise (this (after attach w1)) = None.
Proof.
  intros Hd Hcs w1.
  assert (attachPromise (this w1) = None) as Ha.
  { apply steps_keep_attach_empty; [done|]. unfold after.
    by rewrite (detach_fresh w Hd). }
  unfold after. rewrite (attach_fresh w1 Ha). cbn.
  split; [done|]. split; [done|]. by rewrite sent_app.
Qed.

Lemma detach_then_attach_reissues_witness :
  let w1 := steps [Deliver (typed_message "detached")] (after detach attaching_world) in
  (attach w1).1 = Normal (Some 2) /\
  promises (after attach w1) = promises w1 ++ [Pending].
Proof.
  intros w1.
  destruct (detach_then_attach_reissues attaching_world
              [Deliver (typed_message "detached")])
    as (H1 & H2 & _); [reflexivity|reflexivity|].
  split; [exact H1|exact H2].
Defined.

(** ** The resume and interrupt slots *)

(** A call of [resume] that finds a cached result returns it and does
    nothing but log a debug line, whatever its arguments. *)
Lemma resume_cached w e l p :
  resumePromise (this w) = Some p ->
  resume e l w =
  (Normal (Some p),
   mkWorld (this w) (promises w)
     (trace w ++ [Log debug "Resuming thread ${this.name}" [JStr (_name (this w))]])).
Proof.
  intros H. unfold resume, bind, this_name, log_debug, effect, read, ret. cbn.
  by rewrite H; cbn; rewrite H.
Qed.

Lemma resume_returns w e l :
  exists p, (resume e l w).1 = Normal (Some p) /\
            resumePromise (this (after (resume e l) w)) = Some p.
Proof.
  destruct (resumePromise (this w)) as [p|] eqn:E; unfold after.
  - rewrite (resume_cached w e l p E). cbn. eauto.
  - rewrite (resume_fresh w e l E). cbn. eauto.
Qed.

(** X4. A second [resume], called right after a first one, is answered
    from the cache whatever its arguments are: it returns the promise of
    the first call, sends no request, so its exception-breakpoint and step
    arguments reach nobody, and, unlike [attach] and [detach], it logs no
    warning. *)
Theorem resume_twice_drops_arguments (w : World)
    (e e' : ExceptionBreakpoints.t) (l l' : option ResumeLimitType.t) :
  let w1 := after (resume e l) w in
  let w2 := after (resume e' l') w1 in
  (resume e' l' w1).1 = (resume e l w).1 /\
  (exists p, (resume e l w).1 = Normal (Some p)) /\
  this w2 = this w1 /\
  promises w2 = promises w1 /\
  sent (trace w2) = sent (trace w1) /\
  warnings (trace w2) = warnings (trace w1).
Proof.
  intros w1 w2. destruct (resume_returns w e l) as (p & Hp & Hc).
  fold w1 in Hc. subst w2. unfold after.
  rewrite (resume_cached w1 e' l' p Hc), Hp. cbn.
  split; [done|]. split; [by eexists|]. split; [done|]. split; [done|].
  rewrite sent_app, warnings_app. cbn. by rewrite !app_nil_r.
Qed.

Lemma receive_interrupted w response r :
  paused_with "interrupted" response ->
  pendingInterruptRequest (this w) = Some r ->
  receiveResponse response w =
  (Normal tt,
   mkWorld (set_pendingInterruptRequest None (this w))
     (settle r (Resolved JUndefined) (promises w))
     (trace w ++ [Log debug "Received paused message of type ${pausedResponse.why.type}"
                    [JStr "interrupted"]])).
Proof.
  intros (Ht & why & Hw & Hy) Hr. unfold_receive. cbn.
  rewrite Ht, Hw. cbn. rewrite Hy. cbn. by rewrite Hr.
Qed.

Lemma receive_interrupted_unsolicited w response :
  paused_with "interrupted" response ->
  pendingInterruptRequest (this w) = None ->
  receiveResponse response w =
  (Normal tt,
   mkWorld (this w) (promises w)
     (trace w ++ [Log debug "Received paused message of type ${pausedResponse.why.type}"
                    [JStr "interrupted"];
                  Log warn "Received interrupted message without pending request" []])).
Proof.
  intros (Ht & why & Hw & Hy) Hr. unfold_receive. cbn.
  rewrite Ht, Hw. cbn. rewrite Hy. cbn. rewrite Hr. cbn.
  by rewrite <- app_assoc.
Qed.

(** X5. An [interrupt()] that issues a request, followed by the
    [interrupted] pause, resolves the returned promise, creates no other
    promise and emits no event; the slot keeps the promise, so the next
    [interrupt()] returns the same, resolved promise and sends nothing.
    An [interrupted] pause that finds no pending request only logs a
    warning. *)
Theorem interrupt_then_interrupted (w w' : World) (interrupted : JsObject) :
  interruptPromise (this w) = None ->
  pendingInterruptRequest (this w') = None ->
  paused_with "interrupted" interrupted ->
  (let w1 := after interrupt w in
   let w2 := after (receiveResponse interrupted) w1 in
   exists p,
     (interrupt w).1 = Normal (Some p) /\
     promises w1 !! p = Some Pending /\
     (receiveResponse interrupted w1).1 = Normal tt /\
     promises w2 !! p = Some (Resolved JUndefined) /\
     length (promises w2) = length (promises w1) /\
     emitted (trace w2) = emitted (trace w1) /\
     (interrupt w2).1 = Normal (Some p) /\
     promises (after interrupt w2) = promises w2 /\
     sent (trace (after interrupt w2)) = sent (trace w2))
  /\
  (let w2 := after (receiveResponse interrupted) w' in
   this w2 = this w' /\ promises w2 = promises w' /\
   emitted (trace w2) = emitted (trace w') /\
   warnings (trace w2) =
     warnings (trace w') ++ ["Received interrupted message without pending request"]).
Proof.
  intros Hi Hn Hm. split.
  - intros w1 w2. exists (length (promises w)).
    assert (w1 =
      mkWorld
        (set_resumePromise None
           (set_interruptPromise (Some (length (promises w)))
              (set_pendingInterruptRequest (Some (length (promises w))) (this w))))
        (promises w ++ [Pending])
        (trace w ++ [Log debug "Interrupting thread ${this.name}" [JStr (_name (this w))];
                     SendRequest [("to", JStr (_name (this w)));
                                  ("type", JStr "interrupt")]])) as Hw1.
    { unfold w1, after. by rewrite (interrupt_fresh w Hi). }
    assert (promises w1 !! length (promises w) = Some Pending) as Hp.
    { rewrite Hw1. cbn. by rewrite lookup_app_r, Nat.sub_diag by lia. }
    assert (pendingInterruptRequest (this w1) = Some (length (promises w))) as Hr
      by (by rewrite Hw1).
    assert (interruptPromise (this w1) = Some (length (promises w))) as Hc
      by (by rewrite Hw1).
    split; [by rewrite (interrupt_fresh w Hi)|]. split; [done|].
    subst w2. unfold after.
    rewrite (receive_interrupted w1 interrupted _ Hm Hr). cbn.
    split; [done|]. split; [by apply settle_lookup_pending|].
    split; [by rewrite settle_length|].
    split; [rewrite emitted_app; cbn; by rewrite app_nil_r|].
    rewrite (interrupt_cached _ (length (promises w))) by done. cbn.
    split; [done|]. split; [done|].
    rewrite sent_app. cbn. by rewrite app_nil_r.
  - intros w2. subst w2. unfold after.
    rewrite (receive_interrupted_unsolicited w' interrupted Hm Hn). cbn.
    split; [done|]. split; [done|].
    rewrite emitted_app, warnings_app. cbn. by rewrite app_nil_r.
Qed.

Lemma interrupt_then_interrupted_witness :
  let w1 := after interrupt fresh_world in
  let w2 := after (receiveResponse (paused_message "interrupted")) w1 in
  promises w2 !! 0 = Some (Resolved JUndefined) /\
  (interrupt w2).1 = Normal (Some 0) /\
  sent (trace (after interrupt w2)) = sent (trace w2).
Proof.
  destruct (interrupt_then_interrupted fresh_world fresh_world
              (paused_message "interrupted"))
    as [(p & Hp & _ & _ & H1 & _ & _ & H2 & _ & H3) _].
  - reflexivity.
  - reflexivity.
  - split; [reflexivity|]. eexists. split; reflexivity.
  - injection Hp as <-. split; [exact H1|]. split; [exact H2|exact H3].
Defined.

(** X6. A [resume] that issues a request, followed by the [resumed]
    message, resolves the returned promise; the slot keeps the promise, so
    the next [resume], whatever its arguments, returns the same, resolved
    promise and sends nothing. *)
Theorem resume_then_resumed (w : World) (resumed : JsObject)
    (e e' : ExceptionBreakpoints.t) (l l' : option ResumeLimitType.t) :
  resumePromise (this w) = None ->
  field resumed "type" = JStr "resumed" ->
  let w1 := after (resume e l) w in
  let w2 := after (receiveResponse resumed) w1 in
  exists p,
    (resume e l w).1 = Normal (Some p) /\
    promises w1 !! p = Some Pending /\
    (receiveResponse resumed w1).1 = Normal tt /\
    promises w2 !! p = Some (Resolved JUndefined) /\
    warnings (trace w2) = warnings (trace w1) /\
    (resume e' l' w2).1 = Normal (Some p) /\
    promises (after (resume e' l') w2) = promises w2 /\
    sent (trace (after (resume e' l') w2)) = sent (trace w2).
Proof.
  intros Hr Hm w1 w2. exists (length (promises w)).
  pose proof (resume_fresh w e l Hr) as Hrun.
  assert (promises w1 = promises w ++ [Pending] /\
          pendingResumeRequest (this w1) = Some (length (promises w)) /\
          resumePromise (this w1) = Some (length (promises w))) as (Hps & Hq & Hc).
  { unfold w1, after. by rewrite Hrun. }
  split; [by rewrite Hrun|].
  split; [by rewrite Hps, lookup_app_r, Nat.sub_diag by lia|].
  subst w2. unfold after.
  rewrite (receive_resumed w1 resumed _ Hm Hq). cbn.
  split; [done|]. split.
  { apply settle_lookup_pending. by rewrite Hps, lookup_app_r, Nat.sub_diag by lia. }
  split; [rewrite warnings_app; cbn; by rewrite app_nil_r|].
  rewrite (resume_cached _ e' l' (length (promises w))) by done. cbn.
  split; [done|]. split; [done|].
  rewrite sent_app. cbn. by rewrite app_nil_r.
Qed.

Lemma resume_then_resumed_witness :
  let w1 := after (resume ExceptionBreakpoints.All None) fresh_world in
  let w2 := after (receiveResponse (typed_message "resumed")) w1 in
  promises w2 !! 0 = Some (Resolved JUndefined) /\
  (resume ExceptionBreakpoints.None (Some ResumeLimitType.step) w2).1 = Normal (Some 0).
Proof.
  destruct (resume_then_resumed fresh_world (typed_message "resumed")
              ExceptionBreakpoints.All ExceptionBreakpoints.None
              None (Some ResumeLimitType.step))
    as (p & Hp & _ & _ & H1 & _ & H2 & _); [reflexivity|reflexivity|].
  injection Hp as <-. split; [exact H1|exact H2].
Defined.

(** X7. After a pause with reason [breakpoint], [resumeLimit] or
    [exception], in any world, the thread counts as interrupted and not as
    resumed: the next [interrupt()] returns an already resolved promise and
    sends nothing, and the next [resume] creates a promise and sends a
    [resume] request. *)
Theorem stopped_then_interrupt_or_resume (w : World) (stopped : JsObject)
    (reason : string) (e : ExceptionBreakpoints.t) (l : option ResumeLimitType.t) :
  reason ∈ ["breakpoint"; "resumeLimit"; "exception"] ->
  paused_with reason stopped ->
  let w1 := after (receiveResponse stopped) w in
  (exists p,
     (interrupt w1).1 = Normal (Some p) /\
     promises w1 !! p = Some (Resolved JUndefined) /\
     promises (after interrupt w1) = promises w1 /\
     sent (trace (after interrupt w1)) = sent (trace w1)) /\
  (resume e l w1).1 = Normal (Some (length (promises w1))) /\
  promises (after (resume e l) w1) = promises w1 ++ [Pending] /\
  (exists request,
     sent (trace (after (resume e l) w1)) = sent (trace w1) ++ [request] /\
     field request "type" = JStr "resume").
Proof.
  intros Hin Hs w1. subst w1. unfold after.
  rewrite (receive_breakpoint w stopped reason Hin Hs). cbn. split.
  - exists (length (promises w)).
    rewrite (interrupt_cached _ (length (promises w))) by done. cbn.
    split; [done|]. split; [by rewrite lookup_app_r, Nat.sub_diag by lia|].
    split; [done|]. rewrite sent_app. cbn. by rewrite app_nil_r.
  - rewrite resume_fresh by done. cbn. split; [done|]. split; [done|].
    eexists. split; [by rewrite sent_app|]. done.
Qed.

Lemma stopped_then_interrupt_or_resume_witness :
  let w1 := after (receiveResponse (paused_message "exception")) resumed_world in
  (interrupt w1).1 = Normal (Some 2) /\
  (resume ExceptionBreakpoints.All None w1).1 = Normal (Some 3).
Proof.
  destruct (stopped_then_interrupt_or_resume resumed_world
              (paused_message "exception") "exception" ExceptionBreakpoints.All None)
    as ((p & Hp & _) & H2 & _).
  - apply elem_of_cons. right. apply elem_of_cons. right. apply elem_of_cons. by left.
  - split; [reflexivity|]. eexists. split; reflexivity.
  - split; [reflexivity|exact H2].
Defined.

(** ** Edges of the dispatcher *)

Lemma not_handled_tests reason :
  reason ∉ handled_reasons ->
  (JStr reason === "attached") = false /\
  (JStr reason === "interrupted") = false /\
  (JStr reason === "resumeLimit") = false /\
  (JStr reason === "breakpoint") = false /\
  (JStr reason === "exception") = false /\
  (JStr reason === "clientEvaluated") = false.
Proof.
  unfold handled_reasons. rewrite !not_elem_of_cons. intros (?&?&?&?&?&?&_).
  cbn. repeat split; by apply String.eqb_neq.
Qed.

(** X8. A [paused] message whose reason is a string that the dispatcher
    has no case for is not dropped: the dispatcher returns normally, logs a
    warning and emits a [paused] event that carries the reason, and it
    changes no field and no promise. *)
Theorem unknown_pause_reason_still_emitted (w : World) (response : JsObject)
    (reason : string) :
  reason ∉ handled_reasons ->
  paused_with reason response ->
  let w1 := after (receiveResponse response) w in
  (receiveResponse response w).1 = Normal tt /\
  this w1 = this w /\
  promises w1 = promises w /\
  trace w1 =
    trace w ++
    [Log debug "Received paused message of type ${pausedResponse.why.type}"
       [JStr reason];
     Log warn "Paused event with reason ${pausedResponse.why.type} not handled yet"
       [JStr reason];
     Emit "paused" [Value (field response "why")]].
Proof.
  intros (H1&H2&H3&H4&H5&H6)%not_handled_tests (Ht & why & Hw & Hy) w1.
  subst w1. unfold after. unfold_receive. cbn.
  rewrite Ht, Hw. cbn. rewrite Hy, H1, H2, H3, H4, H5, H6. cbn.
  by rewrite <- !app_assoc.
Qed.

Lemma unknown_pause_reason_still_emitted_witness :
  emitted (trace (after (receiveResponse (paused_message "debuggerStatement"))
                    fresh_world))
  = [("paused", [Value (JObj [("type", JStr "debuggerStatement")])])].
Proof.
  destruct (unknown_pause_reason_still_emitted fresh_world
              (paused_message "debuggerStatement") "debuggerStatement")
    as (_ & _ & _ & H).
  - unfold handled_reasons. rewrite !not_elem_of_cons.
    repeat split; try discriminate. apply not_elem_of_nil.
  - split; [reflexivity|]. eexists. split; reflexivity.
  - rewrite H. reflexivity.
Defined.

(** X9. A [paused] message without a reason record ([why] absent or
    [null]) makes [receiveResponse] throw a TypeError, at the first read of
    [why.type]: nothing has been logged, emitted or assigned by then, so
    the world is exactly as before. *)
Theorem paused_without_why_throws (w : World) (response : JsObject) :
  field response "type" = JStr "paused" ->
  nullish (field response "why") = true ->
  receiveResponse response w = (Throw TypeError, w).
Proof.
  intros Ht Hw. unfold_receive. cbn. rewrite Ht. cbn.
  by destruct (field response "why").
Qed.

Lemma paused_without_why_throws_witness :
  receiveResponse (typed_message "paused") busy_world = (Throw TypeError, busy_world).
Proof.
  apply (paused_without_why_throws busy_world (typed_message "paused"));
    reflexivity.
Defined.

(** X10. A [clientEvaluated] pause without a finished frame
    ([why.frameFinished] absent or [null]) makes [receiveResponse] throw a
    TypeError after the first two assignments of the case: the interrupt
    slot already holds a new resolved promise and the cached resume promise
    is gone, yet no evaluation is resolved: the queue of evaluate requests
    and every promise that existed are as before. *)
Theorem clientEvaluated_without_frame_throws (w : World) (response why : JsObject) :
  field response "type" = JStr "paused" ->
  field response "why" = JObj why ->
  field why "type" = JStr "clientEvaluated" ->
  nullish (field why "frameFinished") = true ->
  receiveResponse response w =
  (Throw TypeError,
   mkWorld
     (set_resumePromise None
        (set_interruptPromise (Some (length (promises w))) (this w)))
     (promises w ++ [Resolved JUndefined])
     (trace w ++ [Log debug "Received paused message of type ${pausedResponse.why.type}"
                    [JStr "clientEvaluated"]])).
Proof.
  intros Ht Hw Hy Hf. unfold_receive. cbn. rewrite Ht, Hw. cbn. rewrite Hy. cbn.
  by destruct (field why "frameFinished").
Qed.

Lemma clientEvaluated_without_frame_throws_witness :
  let r := receiveResponse (paused_message "clientEvaluated") resumed_world in
  r.1 = Throw TypeError /\
  pendingEvaluateRequests (this r.2) = pendingEvaluateRequests (this resumed_world) /\
  resumePromise (this resumed_world) = Some 0 /\
  resumePromise (this r.2) = None.
Proof.
  intros r. subst r.
  rewrite (clientEvaluated_without_frame_throws resumed_world
             (paused_message "clientEvaluated") [("type", JStr "clientEvaluated")]);
    [|reflexivity..].
  repeat split.
Defined.

(** X11. A [newSource] message that carries a source record whose [url]
    converts to a string asks the connection for the actor under
    [source.actor] and emits [newSource] with that actor; it changes no
    field and no promise.  When the source record is absent or [null], or
    when its [url] does not convert to a string, [receiveResponse] throws a
    TypeError before it reaches the connection, and the world is exactly as
    before. *)
Theorem newSource_routing (w w' : World) (response broken source : JsObject) :
  field response "type" = JStr "newSource" ->
  truthy (field response "sources") = false ->
  field response "source" = JObj source ->
  printable (field source "url") = true ->
  field broken "type" = JStr "newSource" ->
  truthy (field broken "sources") = false ->
  (nullish (field broken "source") = true \/
   exists src, field broken "source" = JObj src /\
               printable (field src "url") = false) ->
  receiveResponse response w =
  (Normal tt,
   mkWorld (this w) (promises w)
     (trace w ++
      [Log debug "New source ${source.url} on thread ${this.name}"
         [field source "url"; JStr (_name (this w))];
       GetOrCreate (field source "actor") (JObj source);
       Emit "newSource" [Actor (field source "actor")]])) /\
  receiveResponse broken w' = (Throw TypeError, w').
Proof.
  intros Ht Hs Ho Hu Ht' Hs' Ho'. split.
  - unfold_receive. cbn. rewrite Ht, Hs, Ho. cbn. rewrite Hu. cbn.
    by rewrite <- !app_assoc.
  - unfold_receive. cbn. rewrite Ht', Hs'. cbn.
    destruct Ho' as [Ho'|(src & -> & Hu')].
    + by destruct (field broken "source").
    + cbn. by rewrite Hu'.
Qed.

Lemma newSource_routing_witness :
  emitted (trace (after (receiveResponse
                           [("from", JStr "tab1"); ("type", JStr "newSource");
                            ("source", JObj [("actor", JStr "source7");
                                             ("url", JStr "a.js")])])
                    fresh_world))
    = [("newSource", [Actor (JStr "source7")])] /\
  receiveResponse unprintable_source busy_world = (Throw TypeError, busy_world).
Proof.
  destruct (newSource_routing fresh_world busy_world
              [("from", JStr "tab1"); ("type", JStr "newSource");
               ("source", JObj [("actor", JStr "source7"); ("url", JStr "a.js")])]
              unprintable_source
              [("actor", JStr "source7"); ("url", JStr "a.js")])
    as [H1 H2]; [reflexivity..| |].
  - right. eexists. split; reflexivity.
  - split; [|exact H2]. unfold after. rewrite H1. reflexivity.
Defined.

(** X12. An [exited] message and a [wrongState] error only notify the
    listeners: the dispatcher emits the event, and it changes no field and
    settles no promise, so the request that met the wrong state stays
    queued and pending. *)
Theorem exited_and_wrongState_only_emit (w w' : World) (exited wrong : JsObject) :
  field exited "type" = JStr "exited" ->
  truthy (field exited "sources") = false ->
  truthy (field exited "frames") = false ->
  field wrong "error" = JStr "wrongState" ->
  field wrong "type" = JUndefined ->
  truthy (field wrong "sources") = false ->
  truthy (field wrong "frames") = false ->
  receiveResponse exited w =
  (Normal tt,
   mkWorld (this w) (promises w)
     (trace w ++ [Log debug "Thread ${this.name} exited" [JStr (_name (this w))];
                  Emit "exited" []])) /\
  receiveResponse wrong w' =
  (Normal tt,
   mkWorld (this w') (promises w')
     (trace w' ++
      [Log warn "Thread ${this.name} was in the wrong state for the last request"
         [JStr (_name (this w'))];
       Emit "wrongState" []])).
Proof.
  intros Ht Hs Hf He Ht' Hs' Hf'. split.
  - unfold_receive. cbn. rewrite Ht, Hs, Hf. cbn. by rewrite <- !app_assoc.
  - unfold_receive. cbn. rewrite Ht', Hs', Hf', He. cbn. by rewrite <- !app_assoc.
Qed.

Lemma exited_and_wrongState_only_emit_witness :
  let wrong := [("from", JStr "tab1"); ("error", JStr "wrongState");
                ("message", JStr "not paused")] in
  this (after (receiveResponse wrong) busy_world) = this busy_world /\
  promises (after (receiveResponse wrong) busy_world) = promises busy_world /\
  emitted (trace (after (receiveResponse (typed_message "exited")) fresh_world))
    = [("exited", [])].
Proof.
  intros wrong.
  destruct (exited_and_wrongState_only_emit fresh_world busy_world
              (typed_message "exited") wrong)
    as [H1 H2]; [reflexivity..|].
  unfold after. rewrite H1, H2. repeat split.
Defined.

(** ** What every step keeps *)

Ltac trace_done :=
  rewrite ?sent_app; cbn; rewrite ?app_nil_r; done.

(** X13. Handling an inbound message never writes to the connection:
    whatever the message and the world, and whether the handler returns or
    throws, no request is sent. *)
Theorem receiveResponse_sends_nothing (w : World) (response : JsObject) :
  sent (trace (after (receiveResponse response) w)) = sent (trace w).
Proof.
  crunch; trace_done.
Qed.

(** The name of the proxy never changes. *)
Lemma step_keeps_name c w : _name (this (step c w)) = _name (this w).
Proof. destruct c; unfold step; crunch; done. Qed.

(** A step sends requests to the proxy's own name only, each of one of the
    eight request types. *)
Lemma step_sent_own c w :
  exists new,
    sent (trace (step c w)) = sent (trace w) ++ new /\
    Forall (fun request =>
              field request "to" = JStr (_name (this w)) /\
              exists t, t ∈ request_types /\ field request "type" = JStr t) new.
Proof.
  unfold request_types.
  destruct c; unfold step;
    try (exists []; rewrite app_nil_r; split;
         [apply receiveResponse_sends_nothing|constructor]).
  all: crunch.
  all: rewrite ?sent_app; cbn; rewrite ?app_nil_r.
  all: try (exists []; rewrite app_nil_r; split; [done|constructor]).
  all: eexists; (split; [reflexivity|]).
  all: repeat constructor; cbn; try done.
  all: eexists; (split; [|reflexivity]); set_solver.
Qed.

(** X14. Every request that a proxy has sent, in any history of calls and
    deliveries, is addressed to the name the proxy was created with and
    has one of the eight request types. *)
Theorem requests_addressed_to_own_name (name : string) (cs : list Call) :
  Forall (fun request =>
            field request "to" = JStr name /\
            exists t, t ∈ request_types /\ field request "type" = JStr t)
    (sent (trace (steps cs (init name)))).
Proof.
  assert (forall w,
    _name (this w) = name ->
    Forall (fun request =>
              field request "to" = JStr name /\
              exists t, t ∈ request_types /\ field request "type" = JStr t)
      (sent (trace w)) ->
    Forall (fun request =>
              field request "to" = JStr name /\
              exists t, t ∈ request_types /\ field request "type" = JStr t)
      (sent (trace (steps cs w)))) as H.
  { induction cs as [|c cs IH]; intros w Hn Hs; [done|].
    change (steps (c :: cs) w) with (steps cs (step c w)).
    apply IH; [by rewrite step_keeps_name|].
    destruct (step_sent_own c w) as (new & -> & Hnew).
    apply Forall_app. split; [done|]. by rewrite Hn in Hnew. }
  apply H; [done|]. constructor.
Qed.

(** A promise whose request the proxy does not hold is out of the proxy's
    reach: no call and no delivery changes it, and no step takes its
    request back. *)
Lemma step_unheld_unchanged c w r st :
  r ∉ outstanding (this w) ->
  promises w !! r = Some st ->
  promises (step c w) !! r = Some st /\ r ∉ outstanding (this (step c w)).
Proof.
  intros Hr H. pose proof (lookup_lt_Some _ _ _ H) as Hlt.
  destruct w as [[nm a1 a2 r1 r2 i1 i2 d1 d2 qs qf qe qr] ps tr].
  assert (r ≠ length ps) as Hne by (cbn in Hlt; lia).
  destruct c; unfold step; crunch; unfold outstanding in *; cbn in *.
  all: split;
    [ repeat first
        [ rewrite lookup_app_l
            by (rewrite ?rejectEach_length, ?settle_length, ?rejectEach_length; lia)
        | rewrite settle_lookup_ne by set_solver
        | rewrite rejectEach_lookup_notin by set_solver ];
      done
    | set_solver ].
Qed.

Lemma steps_unheld_unchanged cs w r st :
  r ∉ outstanding (this w) ->
  promises w !! r = Some st ->
  promises (steps cs w) !! r = Some st.
Proof.
  revert w. induction cs as [|c cs IH]; intros w Hr H; [done|].
  change (steps (c :: cs) w) with (steps cs (step c w)).
  destruct (step_unheld_unchanged c w r st Hr H) as [H' Hr']. by apply IH.
Qed.

(** X15. A pause with reason [breakpoint], [resumeLimit] or [exception]
    drops the pending resume request and the pending interrupt request
    without settling them.  The promise of such a request, which [resume]
    or [interrupt] had returned to its caller, is then pending for ever:
    no later history of calls and deliveries settles it. *)
Theorem overtaken_request_never_settles (w : World) (stopped : JsObject)
    (reason : string) (r : PendingRequest) (cs : list Call) :
  wf w = true ->
  pendingResumeRequest (this w) = Some r \/ pendingInterruptRequest (this w) = Some r ->
  reason ∈ ["breakpoint"; "resumeLimit"; "exception"] ->
  paused_with reason stopped ->
  promises w !! r = Some Pending /\
  promises (steps cs (after (receiveResponse stopped) w)) !! r = Some Pending.
Proof.
  intros [Hnd Hp]%wf_spec Hr Hin Hs.
  unfold after. rewrite (receive_breakpoint w stopped reason Hin Hs). cbn.
  destruct w as [[nm a1 a2 r1 r2 i1 i2 d1 d2 qs qf qe qr] ps tr].
  unfold outstanding in *. cbn in *.
  assert (ps !! r = Some Pending) as Hpr.
  { apply Hp. destruct Hr as [->| ->]; cbn; set_solver. }
  split; [done|]. apply steps_unheld_unchanged.
  - unfold outstanding. cbn. rewrite !NoDup_app in Hnd.
    destruct Hr as [->| ->]; cbn in *; set_solver.
  - cbn. rewrite lookup_app_l; [done|]. by eapply lookup_lt_Some.
Qed.

Lemma overtaken_request_never_settles_witness :
  promises (steps [Deliver (typed_message "resumed");
                   CallResume ExceptionBreakpoints.All None;
                   Deliver (typed_message "resumed");
                   Deliver (typed_message "detached")]
              (after (receiveResponse (paused_message "breakpoint")) resumed_world))
    !! 0 = Some Pending.
Proof.
  apply (overtaken_request_never_settles resumed_world (paused_message "breakpoint")
           "breakpoint" 0).
  - reflexivity.
  - left. reflexivity.
  - apply elem_of_cons. by left.
  - split; [reflexivity|]. eexists. split; reflexivity.
Defined.

(** X16. In every world that a history of calls and deliveries leads to
    from a new proxy, the requests the proxy holds (the four lifecycle
    requests and the four queues) are pairwise distinct and the promise of
    each is still pending: the proxy lets go of a request when it settles
    it, and never settles a promise twice. *)
Theorem held_requests_distinct_and_pending (name : string) (cs : list Call) :
  let w := steps cs (init name) in
  NoDup (outstanding (this w)) /\
  Forall (fun r => promises w !! r = Some Pending) (outstanding (this w)).
Proof.
  cbn. pose proof (wf_steps cs (init name) (wf_init name)) as [Hnd Hp]%wf_spec.
  split; [done|]. by apply Forall_forall.
Qed.

(** ** Data calls *)

(** X17. The calls that fetch data are never answered from a cache: each
    call of [fetchSources], [fetchStackFrames], [evaluate] or [releaseMany],
    in any world, returns a new promise, which is pending, and sends
    exactly one request of its type to the proxy's name; the lifecycle
    slots are left as they are.  So two calls in a row give two distinct
    promises and two requests. *)
Theorem data_calls_always_send (w : World) (c : Call) :
  is_data_call c = true ->
  let w1 := step c w in
  promises w1 = promises w ++ [Pending] /\
  length (outstanding (this w1)) = S (length (outstanding (this w))) /\
  length (promises w) ∈ outstanding (this w1) /\
  (exists request,
     sent (trace w1) = sent (trace w) ++ [request] /\
     field request "to" = JStr (_name (this w)) /\
     field request "type" = JStr (data_call_type c)) /\
  (attachPromise (this w1), resumePromise (this w1),
   interruptPromise (this w1), detachPromise (this w1))
  = (attachPromise (this w), resumePromise (this w),
     interruptPromise (this w), detachPromise (this w)).
Proof.
  intros Hc w1. subst w1.
  destruct c; try done; unfold step; crunch; unfold outstanding; cbn.
  all: split; [done|].
  all: split; [rewrite !length_app; cbn; rewrite ?length_app; cbn; lia|].
  all: split; [rewrite !elem_of_app; set_solver|].
  all: split; [|done].
  all: eexists; split; [rewrite !sent_app; cbn; by rewrite app_nil_r|done].
Qed.

Lemma data_calls_always_send_witness :
  promises (step CallFetchSources (step CallFetchSources fresh_world))
    = [Pending; Pending] /\
  length (sent (trace (step CallFetchSources (step CallFetchSources fresh_world)))) = 2.
Proof.
  destruct (data_calls_always_send fresh_world CallFetchSources eq_refl)
    as (H1 & _ & _ & (r1 & Hs1 & _) & _).
  destruct (data_calls_always_send (step CallFetchSources fresh_world)
              CallFetchSources eq_refl)
    as (H2 & _ & _ & (r2 & Hs2 & _) & _).
  rewrite H2, H1, Hs2, Hs1. split; reflexivity.
Defined.

(** ** The expression that [evaluate] sends *)

Lemma unescape_escape_spec s : unescape (escape_spec s) = s.
Proof.
  induction s as [|a s IH]; [done|]. cbn [escape_spec].
  destruct (Ascii.eqb a backslash || Ascii.eqb a dquote) eqn:E.
  - cbn [unescape]. change (Ascii.eqb backslash backslash) with true.
    cbn iota. by rewrite IH.
  - apply orb_false_iff in E as [Eb _]. cbn [unescape]. rewrite Eb. by rewrite IH.
Qed.

Lemma string_length_append s t :
  String.length (s +:+ t) = String.length s + String.length t.
Proof.
  induction s as [|a s IH]; [done|].
  change (String a s +:+ t) with (String a (s +:+ t)). cbn. by rewrite IH.
Qed.

Lemma append_inj_suffix s1 s2 t : s1 +:+ t = s2 +:+ t -> s1 = s2.
Proof.
  revert s2. induction s1 as [|a s1 IH]; intros [|b s2] H; [done|..].
  - apply (f_equal String.length) in H.
    change (String b s2 +:+ t) with (String b (s2 +:+ t)) in H.
    change (EmptyString +:+ t) with t in H.
    cbn in H. rewrite string_length_append in H. lia.
  - apply (f_equal String.length) in H.
    change (String a s1 +:+ t) with (String a (s1 +:+ t)) in H.
    change (EmptyString +:+ t) with t in H.
    cbn in H. rewrite string_length_append in H. lia.
  - change (String a s1 +:+ t) with (String a (s1 +:+ t)) in H.
    change (String b s2 +:+ t) with (String b (s2 +:+ t)) in H.
    injection H as -> H. f_equal. by apply IH.
Qed.

(** X18. The text that [evaluate] sends determines the expression: two
    calls with different expressions send different [expression] texts,
    since the two passes of escaping can be undone. *)
Theorem tryExpression_injective (expr1 expr2 : string) :
  tryExpression expr1 = tryExpression expr2 -> expr1 = expr2.
Proof.
  unfold tryExpression. intros H.
  apply (inj (String.append "eval(")) in H.
  change (String dquote "try{" +:+ ?x) with (String.append (String dquote "try{") x) in H.
  apply (inj (String.append (String dquote "try{"))) in H.
  apply append_inj_suffix in H.
  rewrite <- (unescape_escape_spec expr1), <- (unescape_escape_spec expr2).
  by rewrite <- !escapedExpression_spec, H.
Qed.

Lemma tryExpression_injective_witness : say_hi = say_hi.
Proof. exact (tryExpression_injective say_hi say_hi eq_refl). Defined.

(** X19. Escaping touches nothing but backslashes and double quotes: an
    expression without them is sent as it is.  In particular a line break
    in the expression reaches the text of the remote string literal
    unescaped. *)
Theorem escaping_leaves_other_characters (expr : string) :
  string_forallb (fun a => negb (needs_escape a)) expr = true ->
  escapedExpression expr = expr.
Proof.
  rewrite escapedExpression_spec. unfold needs_escape.
  induction expr as [|a s IH]; [done|]. cbn [string_forallb escape_spec].
  intros [Ha Hs]%andb_true_iff. apply negb_true_iff in Ha. rewrite Ha.
  by rewrite IH.
Qed.

Lemma escaping_leaves_other_characters_witness :
  escapedExpression two_lines = two_lines.
Proof. exact (escaping_leaves_other_characters two_lines eq_refl). Defined.

(** ** Replies to data calls *)

Lemma fetchSources_run w :
  fetchSources w =
  (Normal (length (promises w)),
   mkWorld
     (set_pendingSourcesRequests
        (pendingSourcesRequests (this w) ++ [length (promises w)]) (this w))
     (promises w ++ [Pending])
     (trace w ++
      [Log debug "Fetching sources from thread ${this.name}" [JStr (_name (this w))];
       SendRequest [("to", JStr (_name (this w))); ("type", JStr "sources")]])).
Proof.
  unfold fetchSources, PendingRequests.enqueue, new_Promise, bind, this_name,
    log_debug, sendRequest, effect, read, assign. cbn.
  by rewrite <- app_assoc.
Qed.

Lemma releaseMany_run w names :
  releaseMany names w =
  (Normal (length (promises w)),
   mkWorld
     (set_pendingReleaseRequests
        (pendingReleaseRequests (this w) ++ [length (promises w)]) (this w))
     (promises w ++ [Pending])
     (trace w ++
      [Log debug "Releasing grips on thread ${this.name}" [JStr (_name (this w))];
       SendRequest [("to", JStr (_name (this w))); ("type", JStr "releaseMany");
                    ("actors", JArr (JStr <$> names))]])).
Proof.
  unfold releaseMany, PendingRequests.enqueue, new_Promise, bind, this_name,
    log_debug, sendRequest, effect, read, assign. cbn.
  by rewrite <- app_assoc.
Qed.

(** X20. With no sources request waiting, [fetchSources] followed by a
    message that carries a [sources] payload (and is not [paused],
    [resumed] or [detached]) whose length converts to a string, as that of
    every array does, resolves the returned promise with that payload.  The
    [sources] test comes before the [frames] test and the [newSource]
    test: whatever else the message carries, the queues of stack-frames,
    evaluate and release requests are untouched and no event is emitted.
    When the length of the payload does not convert to a string,
    [receiveResponse] throws a TypeError and the world is exactly as
    before, so a waiting request stays pending.  (The queue is the model
    of the absent [PendingRequests].) *)
Theorem fetchSources_then_sources_reply (w w' : World) (reply bad : JsObject) :
  pendingSourcesRequests (this w) = [] ->
  is_sources_reply reply = true ->
  printable (js_length (field reply "sources")) = true ->
  is_sources_reply bad = true ->
  printable (js_length (field bad "sources")) = false ->
  (let w1 := after fetchSources w in
   let w2 := after (receiveResponse reply) w1 in
   exists p,
     (fetchSources w).1 = Normal p /\
     promises w1 !! p = Some Pending /\
     (receiveResponse reply w1).1 = Normal tt /\
     promises w2 !! p = Some (Resolved (field reply "sources")) /\
     pendingSourcesRequests (this w2) = [] /\
     pendingStackFramesRequests (this w2) = pendingStackFramesRequests (this w) /\
     pendingEvaluateRequests (this w2) = pendingEvaluateRequests (this w) /\
     pendingReleaseRequests (this w2) = pendingReleaseRequests (this w) /\
     emitted (trace w2) = emitted (trace w)) /\
  receiveResponse bad w' = (Throw TypeError, w').
Proof.
  unfold is_sources_reply. rewrite !andb_true_iff, !negb_true_iff.
  intros Hq (((H1 & H2) & H3) & H4) H5 (((B1 & B2) & B3) & B4) B5. split.
  - cbn zeta. unfold after. rewrite fetchSources_run, Hq. cbn.
    exists (length (promises w)). split; [done|].
    split; [by rewrite lookup_app_r, Nat.sub_diag by lia|].
    unfold_receive. cbn. rewrite H1, H2, H3, H4, H5. cbn.
    split; [done|]. split.
    { apply settle_lookup_pending. by rewrite lookup_app_r, Nat.sub_diag by lia. }
    repeat (split; [done|]).
    rewrite !emitted_app. cbn. by rewrite !app_nil_r.
  - unfold_receive. cbn. by rewrite B1, B2, B3, B4, B5.
Qed.

Lemma fetchSources_then_sources_reply_witness :
  let reply := [("from", JStr "tab1"); ("sources", JArr [JStr "a.js"]);
                ("frames", JArr [JStr "f0"])] in
  let w2 := after (receiveResponse reply) (after fetchSources waiting_world) in
  promises w2 !! 0 = Some Pending /\
  promises w2 !! 1 = Some (Resolved (JArr [JStr "a.js"])) /\
  pendingStackFramesRequests (this w2) = [0] /\
  receiveResponse unprintable_sources busy_world = (Throw TypeError, busy_world).
Proof.
  intros reply w2. subst w2.
  destruct (fetchSources_then_sources_reply waiting_world busy_world reply
              unprintable_sources)
    as ((p & Hp & _ & _ & H1 & _ & H2 & _) & H3); [reflexivity..|].
  injection Hp as <-. split; [reflexivity|]. split; [exact H1|].
  split; [exact H2|exact H3].
Defined.

(** X21. With no release request waiting, [releaseMany] (also for an empty
    list of names) sends the names in order and, when a message with
    exactly one property arrives that no earlier test claims, the returned
    promise is resolved with [undefined].  Any such message counts as the
    acknowledgement, whatever its one property is; it emits no event and
    logs no warning.  (The queue is the model of the absent
    [PendingRequests].) *)
Theorem releaseMany_then_acknowledgement (w : World) (names : list string)
    (ack : JsObject) :
  pendingReleaseRequests (this w) = [] ->
  is_release_ack ack = true ->
  let w1 := after (releaseMany names) w in
  let w2 := after (receiveResponse ack) w1 in
  exists p,
    (releaseMany names w).1 = Normal p /\
    sent (trace w1) =
      sent (trace w) ++
      [[("to", JStr (_name (this w))); ("type", JStr "releaseMany");
        ("actors", JArr (JStr <$> names))]] /\
    promises w1 !! p = Some Pending /\
    (receiveResponse ack w1).1 = Normal tt /\
    promises w2 !! p = Some (Resolved JUndefined) /\
    pendingReleaseRequests (this w2) = [] /\
    emitted (trace w2) = emitted (trace w) /\
    warnings (trace w2) = warnings (trace w).
Proof.
  unfold is_release_ack. rewrite !andb_true_iff, !negb_true_iff.
  intros Hq ((((((((H1 & H2) & H3) & H4) & H5) & H6) & H7) & H8) & H9).
  cbn zeta. unfold after. rewrite releaseMany_run, Hq. cbn.
  exists (length (promises w)). split; [done|].
  split; [by rewrite sent_app|].
  split; [by rewrite lookup_app_r, Nat.sub_diag by lia|].
  unfold_receive. cbn. rewrite H1, H2, H3, H4, H5, H6, H7, H8, H9. cbn.
  split; [done|]. split.
  { apply settle_lookup_pending. by rewrite lookup_app_r, Nat.sub_diag by lia. }
  split; [done|].
  rewrite !emitted_app, !warnings_app. cbn. by rewrite !app_nil_r.
Qed.

Lemma releaseMany_then_acknowledgement_witness :
  promises (after (receiveResponse [("from", JStr "tab1")])
              (after (releaseMany []) fresh_world)) !! 0
    = Some (Resolved JUndefined) /\
  promises (after (receiveResponse [("type", JStr "newGlobal")])
              (after (releaseMany ["grip1"; "grip2"]) fresh_world)) !! 0
    = Some (Resolved JUndefined).
Proof.
  destruct (releaseMany_then_acknowledgement fresh_world [] [("from", JStr "tab1")])
    as (p & Hp & _ & _ & _ & H1 & _); [reflexivity|reflexivity|].
  destruct (releaseMany_then_acknowledgement fresh_world ["grip1"; "grip2"]
              [("type", JStr "newGlobal")])
    as (p' & Hp' & _ & _ & _ & H2 & _); [reflexivity|reflexivity|].
  injection Hp as <-. injection Hp' as <-. split; [exact H1|exact H2].
Defined.

(** X22. The dispatcher recognises a data reply by the truthiness of its
    payload.  A reply whose [frames] is an array, the empty array
    included, resolves the oldest stack-frames request with it.  A message
    whose [sources] or [frames] payload is [null], [false], zero or the
    empty string is no reply at all: beside the sender it has no other
    property, so it ends as an unknown message, with a warning, and every
    queue and every promise is as before. *)
Theorem payload_truthiness (w w' : World) (sender key : string)
    (items : list JsVal) (v : JsVal) (h : PendingRequest) (q : list PendingRequest) :
  pendingStackFramesRequests (this w) = h :: q ->
  promises w !! h = Some Pending ->
  key = "sources" \/ key = "frames" ->
  truthy v = false ->
  (let w1 := after (receiveResponse [("from", JStr sender); ("frames", JArr items)]) w in
   promises w1 !! h = Some (Resolved (JArr items)) /\
   pendingStackFramesRequests (this w1) = q) /\
  receiveResponse [("from", JStr sender); (key, v)] w' =
  (Normal tt,
   mkWorld (this w') (promises w')
     (trace w' ++ [Log warn "Unknown message from ThreadActor: "
                     [JObj [("from", JStr sender); (key, v)]]])).
Proof.
  intros Hq Hp Hk Hv. split.
  - cbn zeta. unfold after. unfold_receive. cbn. rewrite Hq. cbn.
    split; [by apply settle_lookup_pending|done].
  - rewrite receive_unrecognized.
    + by destruct Hk as [-> | ->].
    + unfold unrecognized. destruct Hk as [-> | ->]; cbn; by rewrite Hv.
Qed.

Lemma payload_truthiness_witness :
  promises (after (receiveResponse [("from", JStr "tab1"); ("frames", JArr [])])
              waiting_world) !! 0 = Some (Resolved (JArr [])) /\
  pendingStackFramesRequests
    (this (after (receiveResponse [("from", JStr "tab1"); ("frames", JNull)])
             waiting_world)) = [0].
Proof.
  destruct (payload_truthiness waiting_world waiting_world "tab1" "frames" [] JNull 0 [])
    as [[H1 _] H2]; [reflexivity|reflexivity|by right|reflexivity|].
  split; [exact H1|]. unfold after. rewrite H2. reflexivity.
Defined.
